(** * AncorPars: the text-extraction and fuzzy-matching core

    A shallow embedding of the pure functions of [AncorPars.py]:
    [extract_annotation_fragment], [extract_ukrainian_annotation_fragment],
    [generate_ukrainian_url], [generate_russian_url],
    [clean_text_for_comparison], [compare_texts], [check_editors_on_page]
    and the section-walk and link-filter stages of
    [extract_references_section].

    Python strings are sequences of Unicode code points and are modelled as
    [list N]; the regular expressions of the source are modelled by one
    matcher each, run by scanning loops that follow [re.sub], [re.finditer]
    and [re.search]. *)

From Stdlib Require Import NArith ZArith QArith List String Ascii Lia Bool Lqa.
From stdpp Require Import base list gmap sorting.
Import ListNotations.
Local Open Scope nat_scope.

(** ** Python strings *)

(** A [str] is a list of code points. *)
Abbreviation pystr := (list N).

(** String literals of this file are UTF-8, as the source file is; [u] decodes
    one into its code points. *)
Definition bytes_of (s : string) : list N :=
  List.map N_of_ascii (list_ascii_of_string s).

Fixpoint utf8_decode (fuel : nat) (bs : list N) : pystr :=
  match fuel with
  | O => []
  | S f =>
    match bs with
    | [] => []
    | b0 :: r =>
      if (b0 <? 128)%N then b0 :: utf8_decode f r
      else if (b0 <? 224)%N then
        match r with
        | b1 :: r' => ((b0 - 192) * 64 + (b1 - 128))%N :: utf8_decode f r'
        | _ => []
        end
      else if (b0 <? 240)%N then
        match r with
        | b1 :: b2 :: r' =>
            ((b0 - 224) * 4096 + (b1 - 128) * 64 + (b2 - 128))%N :: utf8_decode f r'
        | _ => []
        end
      else
        match r with
        | b1 :: b2 :: b3 :: r' =>
            ((b0 - 240) * 262144 + (b1 - 128) * 4096 + (b2 - 128) * 64 + (b3 - 128))%N
              :: utf8_decode f r'
        | _ => []
        end
    end
  end.

Definition u (s : string) : pystr :=
  let bs := bytes_of s in utf8_decode (length bs) bs.

(** [str.isspace] of one character, which is also the class [\s] of [re] on
    [str] patterns and the set [str.strip] and [str.split] remove. *)
Definition is_space (c : N) : bool :=
  ((9 <=? c) && (c <=? 13) || (28 <=? c) && (c <=? 32) || (c =? 133) || (c =? 160)
   || (c =? 5760) || (8192 <=? c) && (c <=? 8202) || (c =? 8232) || (c =? 8233)
   || (c =? 8239) || (c =? 8287) || (c =? 12288))%N.

(** The simple lower-case mapping, which [re.IGNORECASE] applies character by
    character and [str.lower] applies to a whole string.  It is written out
    for the blocks the markers and texts of this program live in: Basic
    Latin, Latin-1 Supplement, Cyrillic and Cyrillic Supplement.  Every other
    code point is left as it is. *)
Definition lower (c : N) : N :=
  (if (65 <=? c) && (c <=? 90) then c + 32
   else if (192 <=? c) && (c <=? 222) && negb (c =? 215) then c + 32
   else if (1024 <=? c) && (c <=? 1039) then c + 80
   else if (1040 <=? c) && (c <=? 1071) then c + 32
   else if (1120 <=? c) && (c <=? 1153) && N.even c then c + 1
   else if (1162 <=? c) && (c <=? 1215) && N.even c then c + 1
   else if c =? 1216 then 1231
   else if (1217 <=? c) && (c <=? 1230) && N.odd c then c + 1
   else if (1232 <=? c) && (c <=? 1327) && N.even c then c + 1
   else c)%N.

(** [s.lower()] *)
Definition str_lower (s : pystr) : pystr := List.map lower s.

(** [s.replace(a, b)] for one-character [a] and [b] *)
Definition replace_char (a b : N) (s : pystr) : pystr :=
  List.map (fun c => if (c =? a)%N then b else c) s.

(** [s.lstrip()], [s.rstrip()] and [s.strip()] *)
Fixpoint lstrip (s : pystr) : pystr :=
  match s with
  | c :: s' => if is_space c then lstrip s' else s
  | [] => []
  end.

Definition rstrip (s : pystr) : pystr := rev (lstrip (rev s)).

Definition strip (s : pystr) : pystr := rstrip (lstrip s).

(** [s.startswith(p)] *)
Fixpoint startswith (p s : pystr) : bool :=
  match p, s with
  | [], _ => true
  | a :: p', c :: s' => (c =? a)%N && startswith p' s'
  | _ :: _, [] => false
  end.

(** [p in s] *)
Fixpoint contains (p s : pystr) : bool :=
  startswith p s ||
  match s with
  | [] => false
  | _ :: s' => contains p s'
  end.


(** The slice [s[a:b]] for non-negative [a] and [b] *)
Definition slice (s : pystr) (a b : nat) : pystr := take (b - a) (drop a s).

(** [s.split()]: the maximal runs of non-space characters, in order.  [cur]
    is the word being read, last character first. *)
Fixpoint split_go (cur : pystr) (s : pystr) : list pystr :=
  match s with
  | [] => match cur with [] => [] | _ => [rev cur] end
  | c :: s' =>
    if is_space c
    then match cur with [] => split_go [] s' | _ => rev cur :: split_go [] s' end
    else split_go (c :: cur) s'
  end.

Definition split (s : pystr) : list pystr := split_go [] s.

(** [' '.join(ws)] *)
Fixpoint join (ws : list pystr) : pystr :=
  match ws with
  | [] => []
  | [w] => w
  | w :: ws' => w ++ 32%N :: join ws'
  end.

(** ** Python values

    The guards of the source test the truth value and the type of their
    argument before they use it as a string. *)
#[warnings="-register-all"]
Inductive pyobj : Type :=
| PyNone
| PyBool (b : bool)
| PyInt (z : Z)
| PyStr (s : pystr)
| PyList (l : list pyobj).

(** [bool(x)] *)
Definition truthy (x : pyobj) : bool :=
  match x with
  | PyNone => false
  | PyBool b => b
  | PyInt z => negb (z =? 0)%Z
  | PyStr s => match s with [] => false | _ => true end
  | PyList l => match l with [] => false | _ => true end
  end.

(** [isinstance(x, str)] *)
Definition isinstance_str (x : pyobj) : bool :=
  match x with
  | PyStr _ => true
  | _ => false
  end.

(** The characters of [x] once [isinstance(x, str)] has been checked *)
Definition str_of (x : pyobj) : pystr :=
  match x with
  | PyStr s => s
  | _ => []
  end.

(** ** The scanning loops of [re]

    A compiled pattern is modelled by its matcher: given the character before
    the current position ([None] at the start of the string; the look-behind
    and [^] read it) and the text from the current position on, the length of
    the match that starts here, if there is one.  Every pattern of this
    program consumes at least one character when it matches. *)
Definition matcher := option N -> pystr -> option nat.

(** [re.sub(pattern, repl, s)]: matches are found from left to right, do not
    overlap, and each is replaced by [repl] applied to the matched text; the
    look-behind reads the subject string, not the output.  [skip] counts the
    characters of the current match still to be passed over. *)
Fixpoint sub_go (m : matcher) (repl : pystr -> pystr) (skip : nat) (prev : option N)
    (s : pystr) : pystr :=
  match s with
  | [] => []
  | c :: s' =>
    match skip with
    | S k => sub_go m repl k (Some c) s'
    | O =>
      match m prev s with
      | Some (S k) => repl (take (S k) s) ++ sub_go m repl k (Some c) s'
      | _ => c :: sub_go m repl 0 (Some c) s'
      end
    end
  end.

Definition re_sub (m : matcher) (repl : pystr -> pystr) (s : pystr) : pystr :=
  sub_go m repl 0 None s.

(** [re.finditer(pattern, s)]: the (start, end) pairs of the successive
    non-overlapping matches, [pos] being the index of the head of [s]. *)
Fixpoint finditer_go (m : matcher) (skip pos : nat) (prev : option N) (s : pystr)
    : list (nat * nat) :=
  match s with
  | [] => []
  | c :: s' =>
    match skip with
    | S k => finditer_go m k (S pos) (Some c) s'
    | O =>
      match m prev s with
      | Some (S k) => (pos, pos + S k) :: finditer_go m k (S pos) (Some c) s'
      | _ => finditer_go m 0 (S pos) (Some c) s'
      end
    end
  end.

Definition finditer (m : matcher) (s : pystr) : list (nat * nat) :=
  finditer_go m 0 0 None s.

(** [pattern.search(s, pos)]: the leftmost match that starts at [pos] or
    later, as (start, end). *)
Fixpoint search_go (m : matcher) (pos : nat) (prev : option N) (s : pystr)
    : option (nat * nat) :=
  match s with
  | [] => None
  | c :: s' =>
    match m prev s with
    | Some (S k) => Some (pos, pos + S k)
    | _ => search_go m (S pos) (Some c) s'
    end
  end.

Definition re_search (m : matcher) (s : pystr) (pos : nat) : option (nat * nat) :=
  search_go m pos (last (take pos s)) (drop pos s).

(** Length of the longest prefix of [s] whose characters satisfy [p]: a
    greedy [c*] with nothing after it that could force it to give back. *)
Fixpoint span_len (p : N -> bool) (s : pystr) : nat :=
  match s with
  | c :: s' => if p c then S (span_len p s') else 0
  | [] => 0
  end.

(** ** Marker patterns *)

(** A literal of the pattern against the text under [re.IGNORECASE]: the
    characters are compared after lower-casing. *)
Fixpoint ci_prefix (pat s : pystr) : bool :=
  match pat, s with
  | [], _ => true
  | p :: pat', c :: s' => (lower c =? lower p)%N && ci_prefix pat' s'
  | _ :: _, [] => false
  end.

(** The alternation [(p1|p2|...)]: the first alternative, in the order
    written, that matches here. *)
Fixpoint match_alt (alts : list pystr) (s : pystr) : option nat :=
  match alts with
  | [] => None
  | p :: alts' => if ci_prefix p s then Some (length p) else match_alt alts' s
  end.

(** The class [[:\-–—]] *)
Definition is_sep (c : N) : bool :=
  ((c =? 58) || (c =? 45) || (c =? 8211) || (c =? 8212))%N.

(** [re.compile(r'(' + '|'.join(patterns) + r')\s*[:\-–—]*', flags=re.IGNORECASE)] *)
Definition marker_re (patterns : list pystr) : matcher := fun _ s =>
  match match_alt patterns s with
  | Some n =>
      let r := drop n s in
      let ws := span_len is_space r in
      Some (n + ws + span_len is_sep (drop ws r))
  | None => None
  end.

(** [r'\s+'] *)
Definition ws_run_re : matcher := fun _ s =>
  match span_len is_space s with
  | O => None
  | n => Some n
  end.

Definition to_space (_ : pystr) : pystr := [32%N].

(** The first two statements of both extractors:
    [t = text.replace('\xa0', ' ')] and [t = re.sub(r'\s+', ' ', t)]. *)
Definition normalize_spaces (text : pystr) : pystr :=
  re_sub ws_run_re to_space (replace_char 160 32 text).

(** ** [extract_annotation_fragment] *)

Definition start_patterns : list pystr := [u "Аннотация"; u "Аннотація"].
Definition end_patterns_primary : list pystr := [u "Анкор"; u "Anchor"; u "Анкoр"].
Definition end_patterns_secondary : list pystr :=
  [u "Перевод аннотации"; u "Переклад аннотації"; u "Перевод аннотації";
   u "Переклад аннотации"].

Definition start_re : matcher := marker_re start_patterns.
Definition end_re_primary : matcher := marker_re end_patterns_primary.
Definition end_re_secondary : matcher := marker_re end_patterns_secondary.

(** The test of the loop over [all_matches]:
    [before_text = t[max(0, start_idx-20):start_idx].lower()] contains
    neither exclusion term. *)
Definition not_after_translation (t : pystr) (start_idx : nat) : bool :=
  let before_text := str_lower (slice t (start_idx - 20) start_idx) in
  negb (contains (u "перевод") before_text) && negb (contains (u "переклад") before_text).

(** The loop over [all_matches]: the first match the test accepts. *)
Definition find_start_match (t : pystr) : option (nat * nat) :=
  let all_matches := finditer start_re t in
  List.find (fun m => not_after_translation t (fst m)) all_matches.

Definition extract_annotation_fragment (text : pyobj) : pystr :=
  if negb (truthy text) || negb (isinstance_str text) then []
  else
    let t := normalize_spaces (str_of text) in
    match find_start_match t with
    | None => strip t
    | Some start_match =>
      let start_pos := snd start_match in
      let end_match :=
        match re_search end_re_primary t start_pos with
        | Some e => Some e
        | None => re_search end_re_secondary t start_pos
        end in
      let fragment :=
        match end_match with
        | Some e => slice t start_pos (fst e)
        | None => drop start_pos t
        end in
      strip fragment
    end.

(** ** [extract_ukrainian_annotation_fragment] *)

Definition ua_start_patterns : list pystr :=
  [u "Перевод аннотации"; u "Переклад аннотації"; u "Перевод аннотації";
   u "Переклад аннотации"].
Definition ua_end_patterns : list pystr := [u "Анкор"; u "Anchor"; u "Анкoр"].

Definition ua_start_re : matcher := marker_re ua_start_patterns.
Definition ua_end_re : matcher := marker_re ua_end_patterns.

(** [r'[\*_#]{1,}'] *)
Definition is_emphasis (c : N) : bool := ((c =? 42) || (c =? 95) || (c =? 35))%N.

Definition emphasis_run_re : matcher := fun _ s =>
  match span_len is_emphasis s with
  | O => None
  | n => Some n
  end.

Definition extract_ukrainian_annotation_fragment (text : pyobj) : pystr :=
  if negb (truthy text) || negb (isinstance_str text) then []
  else
    let t := normalize_spaces (str_of text) in
    match re_search ua_start_re t 0 with
    | None => []
    | Some start_match =>
      let start_pos := snd start_match in
      let fragment :=
        match re_search ua_end_re t start_pos with
        | Some e => slice t start_pos (fst e)
        | None => drop start_pos t
        end in
      let fragment := re_sub emphasis_run_re to_space fragment in
      strip (re_sub ws_run_re to_space fragment)
    end.


(** ** [clean_text_for_comparison] *)

(** [t.replace('\r\n', '\n')] *)
Fixpoint replace_crlf (s : pystr) : pystr :=
  match s with
  | [] => []
  | c :: s' =>
    if (c =? 13)%N then
      match s' with
      | d :: s'' => if (d =? 10)%N then 10%N :: replace_crlf s'' else c :: replace_crlf s'
      | [] => [c]
      end
    else c :: replace_crlf s'
  end.

(** [r'<[^>]+>']: a [<], the longest run of characters other than [>], which
    must not be empty, and the [>] that ends it. *)
Definition tag_re : matcher := fun _ s =>
  match s with
  | c :: r =>
    if (c =? 60)%N then
      let n := span_len (fun x => negb (x =? 62)%N) r in
      match n, drop n r with
      | S _, _ :: _ => Some (S n + 1)
      | _, _ => None
      end
    else None
  | [] => None
  end.

(** The lazy [.*?] followed by a closing delimiter made of the character [d]
    twice: the number of characters before the first place where the
    delimiter stands, none of them a newline, which [.] does not match. *)
Fixpoint lazy_until2 (d : N) (s : pystr) : option nat :=
  match s with
  | a :: s' =>
    match s' with
    | b :: _ =>
      if (a =? d)%N && (b =? d)%N then Some 0
      else if (a =? 10)%N then None
      else option_map S (lazy_until2 d s')
    | [] => None
    end
  | [] => None
  end.

(** The same with a one-character closing delimiter. *)
Fixpoint lazy_until1 (d : N) (s : pystr) : option nat :=
  match s with
  | a :: s' =>
    if (a =? d)%N then Some 0
    else if (a =? 10)%N then None
    else option_map S (lazy_until1 d s')
  | [] => None
  end.

(** [r'(\*\*|__)(.*?)\1'], replaced by [r'\2'] *)
Definition strong_re : matcher := fun _ s =>
  match s with
  | a :: b :: r =>
    if (a =? 42)%N && (b =? 42)%N || (a =? 95)%N && (b =? 95)%N then
      match lazy_until2 a r with
      | Some k => Some (2 + k + 2)
      | None => None
      end
    else None
  | _ => None
  end.

Definition strong_group2 (w : pystr) : pystr := take (length w - 4) (drop 2 w).

Definition is_char (d : N) (o : option N) : bool :=
  match o with
  | Some c => (c =? d)%N
  | None => false
  end.

(** The fifth pattern of the cleaner: a star with no star before it (negative
    look-behind) and no star after it (negative look-ahead). *)
Definition lone_star_re : matcher := fun prev s =>
  match s with
  | c :: r =>
    if (c =? 42)%N && negb (is_char 42 prev) && negb (is_char 42 (head r))
    then Some 1 else None
  | [] => None
  end.

(** [r'_(.*?)_'], replaced by [r'\1'] *)
Definition underscore_re : matcher := fun _ s =>
  match s with
  | c :: r =>
    if (c =? 95)%N then
      match lazy_until1 95 r with
      | Some k => Some (1 + k + 1)
      | None => None
      end
    else None
  | [] => None
  end.

Definition underscore_group1 (w : pystr) : pystr := take (length w - 2) (drop 1 w).

(** [^] under [(?m)]: the start of the string or just after a newline. *)
Definition at_line_start (prev : option N) : bool :=
  match prev with
  | None => true
  | Some c => (c =? 10)%N
  end.

(** [r'(?m)^\s{0,3}#+\s*']: [\s{0,3}] takes the whole run of spaces before the
    [#] or fails, since giving back a space leaves a space where [#] is
    wanted. *)
Definition heading_re : matcher := fun prev s =>
  if at_line_start prev then
    let ws := span_len is_space s in
    if ws <=? 3 then
      let r := drop ws s in
      match span_len (fun x => (x =? 35)%N) r with
      | O => None
      | S h => Some (ws + S h + span_len is_space (drop (S h) r))
      end
    else None
  else None.

(** [r'\[\^?.*?\]']: the optional [^] is a character [.] matches too, so the
    match runs from the [[] to the first []] after it, no newline between. *)
Definition footnote_re : matcher := fun _ s =>
  match s with
  | c :: r =>
    if (c =? 91)%N then
      match lazy_until1 93 r with
      | Some k => Some (1 + k + 1)
      | None => None
      end
    else None
  | [] => None
  end.

Definition is_dash (c : N) : bool := ((c =? 45) || (c =? 8212))%N.
Definition is_dot (c : N) : bool := (c =? 46)%N.

(** [r'[\-—]{2,}'] *)
Definition dash_run_re : matcher := fun _ s =>
  let n := span_len is_dash s in if 2 <=? n then Some n else None.

(** [r'\.\.{2,}'] *)
Definition dot_run_re : matcher := fun _ s =>
  let n := span_len is_dot s in if 3 <=? n then Some n else None.

Definition clean_text_for_comparison (text : pyobj) : pystr :=
  if negb (truthy text) || negb (isinstance_str text) then []
  else
    let t := replace_char 160 32 (str_of text) in
    let t := replace_char 13 10 (replace_crlf t) in
    let t := re_sub tag_re to_space t in
    let t := re_sub strong_re strong_group2 t in
    let t := re_sub lone_star_re to_space t in
    let t := re_sub underscore_re underscore_group1 t in
    let t := re_sub heading_re to_space t in
    let t := re_sub footnote_re to_space t in
    let t := re_sub dash_run_re to_space t in
    let t := re_sub dot_run_re to_space t in
    let t := replace_char 95 32 (replace_char 42 32 t) in
    strip (re_sub ws_run_re to_space t).

(** ** [compare_texts] *)

(** [range(0, stop, step)] for [step >= 1] *)
Fixpoint range_from (fuel i stop step : nat) : list nat :=
  match fuel with
  | O => []
  | S f => if i <? stop then i :: range_from f (i + step) stop step else []
  end.

Definition py_range (stop step : nat) : list nat := range_from stop 0 stop step.

(** One element of [chunks] and one of [missing_fragments] *)
Record chunk := { original : pystr; normalized : pystr }.
Record missing_fragment := { text : pystr; score : Q }.

(** [step = max(1, int(chunk_size * 0.8))].  For an integer
    [0 <= chunk_size < 2^50], which covers every size the program is run
    with, the double product truncates to [chunk_size * 4 / 5] rounded
    down. *)
Definition chunk_step (chunk_size : nat) : nat := Nat.max 1 (chunk_size * 4 / 5).

Definition min_words_threshold : nat := 10.

(** The loop [for i in range(0, len(words), step)] *)
Definition make_chunks (words orig_words_clean : list pystr) (chunk_size : nat)
    : list chunk :=
  let step := chunk_step chunk_size in
  flat_map (fun i =>
    let chunk_words := take chunk_size (drop i words) in
    if min_words_threshold <=? length chunk_words then
      let orig_chunk_words :=
        if i <? length orig_words_clean
        then take chunk_size (drop i orig_words_clean) else [] in
      let original :=
        match orig_chunk_words with
        | [] => join chunk_words
        | _ => join orig_chunk_words
        end in
      [ {| original := original; normalized := join chunk_words |} ]
    else [])
  (py_range (length words) step).

(** [chunk['original'][:200] + '...' if len(chunk['original']) > 200 else chunk['original']] *)
Definition display_text (original : pystr) : pystr :=
  if 200 <? length original then take 200 original ++ u "..." else original.

(** [min(scores)]: the first of the smallest elements *)
Definition py_min (scores : list Q) : Q :=
  match scores with
  | [] => 0%Q
  | x :: l => fold_left (fun m y => if Qle_bool m y then m else y) l x
  end.

(** [sum(scores)] *)
Definition py_sum (scores : list Q) : Q := fold_left Qplus scores 0%Q.

Definition zero_result : Q * Q * list missing_fragment := (0%Q, 0%Q, []).

Section Compare.
(** [rapidfuzz.fuzz.token_set_ratio], a function of the two strings *)
Variable token_set_ratio : pystr -> pystr -> Q.

(** The words of the cleaned fragment, lower-cased and as they are *)
Definition fragment_chunks (doc_fragment : pyobj) (chunk_size : nat) : list chunk :=
  let doc_text_clean := clean_text_for_comparison doc_fragment in
  let doc_text_lower := str_lower doc_text_clean in
  let words := split doc_text_lower in
  let orig_words_clean := split doc_text_clean in
  make_chunks words orig_words_clean chunk_size.

Definition chunk_score (page_text_lower : pystr) (c : chunk) : Q :=
  token_set_ratio (normalized c) page_text_lower.

(** The loop [for chunk in chunks]: the scores and the missing fragments *)
Definition missing_of (page_text_lower : pystr) (threshold : Q) (chunks : list chunk)
    : list missing_fragment :=
  flat_map (fun c =>
    let score := chunk_score page_text_lower c in
    if negb (Qle_bool threshold score)
    then [ {| text := display_text (original c); score := score |} ]
    else []) chunks.

Definition compare_texts (doc_fragment page_text : pyobj) (threshold : Q)
    (chunk_size : nat) : Q * Q * list missing_fragment :=
  if negb (truthy doc_fragment) || negb (truthy page_text) then zero_result
  else
    let page_text_clean := clean_text_for_comparison page_text in
    let page_text_lower := str_lower page_text_clean in
    let words := split (str_lower (clean_text_for_comparison doc_fragment)) in
    match words with
    | [] => zero_result
    | _ =>
      let chunks := fragment_chunks doc_fragment chunk_size in
      match chunks with
      | [] => zero_result
      | _ =>
        let scores := List.map (chunk_score page_text_lower) chunks in
        let missing_fragments := missing_of page_text_lower threshold chunks in
        let min_score := py_min scores in
        let avg_score := (py_sum scores / inject_Z (Z.of_nat (length scores)))%Q in
        (min_score, avg_score, missing_fragments)
      end
    end.
End Compare.

(** ** [urllib.parse]

    [urlparse] and [urlunparse] as CPython 3.12 defines them.  [urlsplit]
    raises [ValueError] on a netloc with one square bracket and not the
    other; [urlparse] is [None] there.  Its two further checks, of the text
    between matching brackets and of the NFKC form of a non-ASCII netloc,
    are left out: no property below is about a URL they reject. *)
Record ParseResult := {
  url_scheme : pystr;
  url_netloc : pystr;
  url_path : pystr;
  url_params : pystr;
  url_query : pystr;
  url_fragment : pystr
}.

Definition is_ascii_alpha (c : N) : bool :=
  ((65 <=? c) && (c <=? 90) || (97 <=? c) && (c <=? 122))%N.

Definition is_ascii_digit (c : N) : bool := ((48 <=? c) && (c <=? 57))%N.

(** [scheme_chars]: the letters, the digits and [+-.] *)
Definition is_scheme_char (c : N) : bool :=
  is_ascii_alpha c || is_ascii_digit c || (c =? 43)%N || (c =? 45)%N || (c =? 46)%N.

(** [_WHATWG_C0_CONTROL_OR_SPACE] and [_UNSAFE_URL_BYTES_TO_REMOVE] *)
Definition is_c0_or_space (c : N) : bool := (c <=? 32)%N.
Definition is_unsafe_url_byte (c : N) : bool := ((c =? 9) || (c =? 10) || (c =? 13))%N.

Fixpoint lstrip_c0 (s : pystr) : pystr :=
  match s with
  | c :: s' => if is_c0_or_space c then lstrip_c0 s' else s
  | [] => []
  end.

(** [s.find(c)] *)
Fixpoint find_char (c : N) (s : pystr) : option nat :=
  match s with
  | [] => None
  | a :: s' => if (a =? c)%N then Some 0 else option_map S (find_char c s')
  end.

(** [c in s] *)
Definition has_char (c : N) (s : pystr) : bool := existsb (fun a => (a =? c)%N) s.

(** [s.split(c, 1)] when [c in s], and [(s, '')] otherwise *)
Definition split_once (c : N) (s : pystr) : pystr * pystr :=
  match find_char c s with
  | Some i => (take i s, drop (S i) s)
  | None => (s, [])
  end.

Definition is_netloc_delim (c : N) : bool := ((c =? 47) || (c =? 63) || (c =? 35))%N.

Definition uses_params : list pystr :=
  [u ""; u "ftp"; u "hdl"; u "prospero"; u "http"; u "imap"; u "https"; u "shttp";
   u "rtsp"; u "rtspu"; u "sip"; u "sips"; u "mms"; u "sftp"; u "tel"].


Definition str_eqb (a b : pystr) : bool := bool_decide (a = b).

Definition str_in (s : pystr) (l : list pystr) : bool := existsb (str_eqb s) l.

(** [url[0].isascii() and url[0].isalpha()] *)
Definition head_is_ascii_alpha (url : pystr) : bool :=
  match url with
  | c :: _ => is_ascii_alpha c
  | [] => false
  end.

(** [urlsplit(url)], as (scheme, netloc, path, query, fragment) *)
Definition urlsplit (url : pystr) : option (pystr * pystr * pystr * pystr * pystr) :=
  let url := lstrip_c0 url in
  let url := List.filter (fun c => negb (is_unsafe_url_byte c)) url in
  let '(scheme, url) :=
    match find_char 58 url with
    | Some i =>
      if (0 <? i) && head_is_ascii_alpha url && forallb is_scheme_char (take i url)
      then (str_lower (take i url), drop (S i) url)
      else ([], url)
    | None => ([], url)
    end in
  let '(netloc, url) :=
    if startswith (u "//") url then
      let body := drop 2 url in
      let n := span_len (fun c => negb (is_netloc_delim c)) body in
      (take n body, drop n body)
    else ([], url) in
  if has_char 91 netloc && negb (has_char 93 netloc)
     || has_char 93 netloc && negb (has_char 91 netloc)
  then None
  else
    let '(url, fragment) := split_once 35 url in
    let '(url, query) := split_once 63 url in
    Some (scheme, netloc, url, query, fragment).

(** The text after the last slash of [s], when it has one: what
    [url.rfind('/')] locates *)
Fixpoint after_last_slash (s : pystr) : option pystr :=
  match s with
  | [] => None
  | c :: s' =>
    match after_last_slash s' with
    | Some r => Some r
    | None => if (c =? 47)%N then Some s' else None
    end
  end.

(** [_splitparams(url)] *)
Definition splitparams (url : pystr) : pystr * pystr :=
  match after_last_slash url with
  | Some seg =>
    match find_char 59 seg with
    | Some j =>
      let i := length url - length seg + j in
      (take i url, drop (S i) url)
    | None => (url, [])
    end
  | None => split_once 59 url
  end.

Definition urlparse (url : pystr) : option ParseResult :=
  match urlsplit url with
  | None => None
  | Some (scheme, netloc, url, query, fragment) =>
    let '(url, params) :=
      if str_in scheme uses_params && has_char 59 url
      then splitparams url else (url, []) in
    Some {| url_scheme := scheme; url_netloc := netloc; url_path := url;
            url_params := params; url_query := query; url_fragment := fragment |}
  end.

Definition nonempty (s : pystr) : bool :=
  match s with
  | [] => false
  | _ => true
  end.



(** ** [generate_ukrainian_url] and [generate_russian_url] *)

Definition generate_ukrainian_url (ru_url : pyobj) : pystr :=
  if negb (truthy ru_url) || negb (isinstance_str ru_url) then []
  else
    let ru_url := str_of ru_url in
    match urlparse ru_url with
    | None => []
    | Some parsed =>
      let path := url_path parsed in
      if contains (u "/ua/") path then ru_url
      else
        let new_path :=
          if startswith (u "/") path then u "/ua" ++ path else u "/ua/" ++ path in
        let new_url := url_scheme parsed ++ u "://" ++ url_netloc parsed ++ new_path in
        let new_url :=
          if nonempty (url_query parsed)
          then new_url ++ u "?" ++ url_query parsed else new_url in
        if nonempty (url_fragment parsed)
        then new_url ++ u "#" ++ url_fragment parsed else new_url
    end.


(** ** [check_editors_on_page] *)

(** What a call does: it returns a value or raises. *)
Inductive outcome (A : Type) : Type :=
| Returns (a : A)
| Raises (exc : string).
Arguments Returns {A} a.
Arguments Raises {A} exc.

Definition editors : list pystr :=
  [u "Щербаченко Юлія"; u "Севрюков Олександр Вікторович"].

(** [re.search(re.escape(editor), normalized_text, re.IGNORECASE)] finds a match *)
Fixpoint contains_ci (pat s : pystr) : bool :=
  ci_prefix pat s ||
  match s with
  | [] => false
  | _ :: s' => contains_ci pat s'
  end.

Definition check_editors_on_page (page_text : pyobj) : outcome (bool * list pystr) :=
  if negb (truthy page_text) then Returns (false, [])
  else
    match page_text with
    | PyStr page_text =>
      let normalized_text := replace_char 160 32 page_text in
      let found_editors :=
        List.filter (fun editor => contains_ci editor normalized_text) editors in
      Returns (0 <? length found_editors, found_editors)
    | _ => Raises "AttributeError"
    end.

(** ** The document tree of BeautifulSoup

    A [Tag] has a name, a dictionary of attributes and its contents; a text
    node is a [NavigableString].  A node of the tree is addressed by its
    path, the child indices from the root. *)
#[warnings="-register-all"]
Inductive node : Type :=
| Tag (name : string) (attrs : gmap string string) (contents : list node)
| NavigableString (s : string).

(** [a == b] on page elements: [Tag.__eq__] compares the name, the attributes
    and the contents, one by one; two text nodes compare as strings. *)
Fixpoint node_eqb (a b : node) : bool :=
  match a, b with
  | Tag n1 at1 c1, Tag n2 at2 c2 =>
      String.eqb n1 n2 && bool_decide (at1 = at2) &&
      (fix all_eqb (l1 l2 : list node) : bool :=
         match l1, l2 with
         | [], [] => true
         | x :: l1', y :: l2' => node_eqb x y && all_eqb l1' l2'
         | _, _ => false
         end) c1 c2
  | NavigableString s1, NavigableString s2 => String.eqb s1 s2
  | _, _ => false
  end.

(** [bool(current)]: a [Tag] is always true, a text node is true when it is
    not empty. *)
Definition node_truthy (n : node) : bool :=
  match n with
  | Tag _ _ _ => true
  | NavigableString s => negb (String.eqb s "")
  end.

Definition name_in (names : list string) (n : node) : bool :=
  match n with
  | Tag name _ _ => existsb (String.eqb name) names
  | NavigableString _ => false
  end.

Fixpoint node_at (root : node) (p : list nat) : option node :=
  match p with
  | [] => Some root
  | i :: p' =>
    match root with
    | Tag _ _ cs =>
      match cs !! i with
      | Some c => node_at c p'
      | None => None
      end
    | NavigableString _ => None
    end
  end.

(** The chain [x.next_sibling, x.next_sibling.next_sibling, ...] of the node
    at path [p] *)
Definition next_siblings (soup : node) (p : list nat) : list node :=
  match rev p with
  | [] => []
  | i :: rp =>
    match node_at soup (rev rp) with
    | Some (Tag _ _ cs) => drop (S i) cs
    | _ => []
    end
  end.

(** [x.find_parent(names)]: the nearest ancestor with one of the names; [rp]
    is the path of [x], last index first. *)
Fixpoint find_parent (names : list string) (soup : node) (rp : list nat) : option node :=
  match rp with
  | [] => None
  | _ :: rp' =>
    match node_at soup (rev rp') with
    | Some anc => if name_in names anc then Some anc else find_parent names soup rp'
    | None => None
    end
  end.

(** The descendants of a node in document order *)
Fixpoint descendants (n : node) : list node :=
  match n with
  | Tag _ _ cs => flat_map (fun c => c :: descendants c) cs
  | NavigableString _ => []
  end.

(** [x.find_all(names)] *)
Definition find_all (names : list string) (n : node) : list node :=
  List.filter (name_in names) (descendants n).

(** ** [extract_references_section]: the section header *)

Definition heading_names : list string := ["h1"; "h2"; "h3"; "h4"; "h5"; "h6"]%string.

Definition section_patterns : list pystr :=
  [u "Список использованной литературы"; u "Список використаної літератури";
   u "Список литературы"; u "Список літератури"; u "Литература"; u "Література";
   u "References"; u "Bibliography"].

(** The strings of a node in document order, and [tag.get_text(strip=True)]:
    the strings stripped, the empty ones left out, joined with nothing
    between them. *)
Fixpoint all_strings (n : node) : list pystr :=
  match n with
  | Tag _ _ cs => flat_map all_strings cs
  | NavigableString s => [u s]
  end.

Definition get_text_strip (n : node) : pystr :=
  concat (List.filter nonempty (List.map strip (all_strings n))).

(** The descendants of a node in document order, each with its path; [p] is
    the path of the node itself. *)
Fixpoint descendants_at (p : list nat) (n : node) : list (list nat * node) :=
  match n with
  | Tag _ _ cs =>
      (fix children (i : nat) (cs : list node) : list (list nat * node) :=
         match cs with
         | [] => []
         | c :: cs' => (p ++ [i], c) :: descendants_at (p ++ [i]) c ++ children (S i) cs'
         end) 0 cs
  | NavigableString _ => []
  end.

(** The inner loop [for pattern in section_patterns]: some pattern is found
    in [text.lower()], letter case apart. *)
Definition is_section_title (text : pystr) : bool :=
  existsb (fun pattern => contains_ci pattern (str_lower text)) section_patterns.

Definition header_search_kinds : list string := ["p"; "div"; "section"; "span"]%string.

(** The two loops that set [section_header]: the first heading whose text
    has a section title, and when there is none the first paragraph, block
    or span of at most 100 characters whose text has one. *)
Definition locate_section_header (soup : node) : option (list nat) :=
  let elements := descendants_at [] soup in
  let in_headings :=
    List.find (fun e =>
        name_in heading_names (snd e)
        && let text := get_text_strip (snd e) in nonempty text && is_section_title text)
      elements in
  match in_headings with
  | Some e => Some (fst e)
  | None =>
    option_map fst
      (List.find (fun e =>
          name_in header_search_kinds (snd e)
          && let text := get_text_strip (snd e) in
             nonempty text && (length text <=? 100) && is_section_title text)
        elements)
  end.

(** ** [extract_references_section]: the section content *)

Definition sibling_kinds : list string :=
  ["p"; "div"; "li"; "ul"; "ol"; "span"; "a"; "section"]%string.
Definition container_names : list string := ["div"; "section"; "article"; "main"]%string.
Definition fallback_kinds : list string :=
  ["p"; "div"; "li"; "span"; "a"; "ul"; "ol"]%string.
Definition max_elements : nat := 20.

(** The loop [while current and count < max_elements] over the siblings that
    follow the header *)
Fixpoint walk_siblings (siblings : list node) (count : nat) (section_content : list node)
    : list node :=
  match siblings with
  | [] => section_content
  | current :: rest =>
    if node_truthy current && (count <? max_elements) then
      match current with
      | Tag _ _ _ =>
        if name_in heading_names current then section_content
        else if name_in sibling_kinds current
        then walk_siblings rest (S count) (section_content ++ [current])
        else walk_siblings rest count section_content
      | NavigableString _ => walk_siblings rest count section_content
      end
    else section_content
  end.

(** The loop [for elem in parent_container.find_all([...])] *)
Fixpoint walk_container (section_header : node) (elems : list node) (found_header : bool)
    (count : nat) (section_content : list node) : list node :=
  match elems with
  | [] => section_content
  | elem :: rest =>
    if node_eqb elem section_header
    then walk_container section_header rest true count section_content
    else if found_header && (count <? max_elements) then
      if name_in heading_names elem then section_content
      else if negb (existsb (node_eqb elem) section_content)
      then walk_container section_header rest found_header (S count)
             (section_content ++ [elem])
      else walk_container section_header rest found_header count section_content
    else walk_container section_header rest found_header count section_content
  end.

(** The block [if section_header:] up to the link extraction, for the header
    at [header_path] *)
Definition collect_section_content (soup : node) (header_path : list nat) : list node :=
  match node_at soup header_path with
  | None => []
  | Some section_header =>
    let section_content := walk_siblings (next_siblings soup header_path) 0 [] in
    if length section_content <? 3 then
      match find_parent container_names soup (rev header_path) with
      | Some parent_container =>
          walk_container section_header (find_all fallback_kinds parent_container)
            false 0 section_content
      | None => section_content
      end
    else section_content
  end.

(** ** [extract_references_section]: the filter of the collected links *)

(** The order of [sorted] on strings: code point by code point, a proper
    prefix first. *)
Fixpoint str_leb (a b : pystr) : bool :=
  match a, b with
  | [], _ => true
  | _ :: _, [] => false
  | x :: a', y :: b' => (x <? y)%N || (x =? y)%N && str_leb a' b'
  end.

Definition str_le (a b : pystr) : Prop := str_leb a b = true.

#[global] Instance str_le_dec : RelDecision str_le.
Proof. intros a b. unfold str_le. apply _. Defined.






(** [x < y] on scores can be decided. *)
#[global] Instance Qlt_decision (x y : Q) : Decision (x < y)%Q.
Proof.
  destruct (Qlt_le_dec x y) as [H | H]; [left; exact H | right].
  intros H'. exact (Qlt_not_le _ _ H' H).
Defined.

(** ** [extract_doc_id] *)

Section DocId.
(** [str.isalnum] of a character outside ASCII, which the Unicode tables
    give *)
Variable unicode_alnum : N -> bool.

(** The class [\w] of [re] on a [str] pattern: the letters, the digits and
    the underscore *)
Definition is_word (c : N) : bool :=
  if (c <? 128)%N then is_ascii_alpha c || is_ascii_digit c || (c =? 95)%N
  else unicode_alnum c.

(** The class [[-\w]] *)
Definition is_id_char (c : N) : bool := (c =? 45)%N || is_word c.

(** The alternatives of [(?:/d/|/document/d/|[?&]id=)], in the order
    written: what each matches at the head of [s] *)
Definition doc_id_alternatives : list (pystr -> option nat) :=
  [ (fun s => if startswith (u "/d/") s then Some 3 else None);
    (fun s => if startswith (u "/document/d/") s then Some 12 else None);
    (fun s => match s with
              | c :: r =>
                  if ((c =? 63)%N || (c =? 38)%N) && startswith (u "id=") r
                  then Some 4 else None
              | [] => None
              end) ].

(** The group [([-\w]+)]: the longest run of its class, which must not be
    empty *)
Definition doc_id_group (s : pystr) : option nat :=
  match span_len is_id_char s with
  | O => None
  | n => Some n
  end.

(** The whole pattern at the head of [s]: the first alternative after which
    the group matches, as (length of the match, offset of group 1). *)
Fixpoint doc_id_try (alts : list (pystr -> option nat)) (s : pystr) : option (nat * nat) :=
  match alts with
  | [] => None
  | alt :: alts' =>
    match alt s with
    | Some n =>
      match doc_id_group (drop n s) with
      | Some k => Some (n + k, n)
      | None => doc_id_try alts' s
      end
    | None => doc_id_try alts' s
    end
  end.

(** [r'(?:/d/|/document/d/|[?&]id=)([-\w]+)'] *)
Definition doc_id_re : matcher := fun _ s =>
  option_map fst (doc_id_try doc_id_alternatives s).

Definition extract_doc_id (url : pyobj) : option pystr :=
  if negb (truthy url) || negb (isinstance_str url) then None
  else
    let url := str_of url in
    match re_search doc_id_re url 0 with
    | Some (start, stop) =>
      match doc_id_try doc_id_alternatives (drop start url) with
      | Some (_, group1) => Some (slice url (start + group1) stop)
      | None => None
      end
    | None => None
    end.
End DocId.

(** ** [get_page_text] *)

Definition chrome_names : list string :=
  ["script"; "style"; "nav"; "footer"; "header"]%string.

(** [for script in soup([...]): script.decompose()]: every element with one
    of the names goes out of the tree, with all it holds. *)
Fixpoint decompose_all (names : list string) (n : node) : node :=
  match n with
  | Tag name attrs cs =>
      Tag name attrs
        (flat_map (fun c => if name_in names c then [] else [decompose_all names c]) cs)
  | NavigableString _ => n
  end.

(** [sep.join(parts)] *)
Fixpoint str_join (sep : pystr) (parts : list pystr) : pystr :=
  match parts with
  | [] => []
  | [p] => p
  | p :: parts' => p ++ sep ++ str_join sep parts'
  end.

(** [tag.get_text(separator=sep)], the text nodes of the tree being the ones
    [get_text] reads *)
Definition get_text (sep : pystr) (n : node) : pystr := str_join sep (all_strings n).

(** The statements of [get_page_text] after the parse *)
Definition page_text_of_soup (soup : node) : pystr :=
  let soup := decompose_all chrome_names soup in
  let text := get_text [10%N] soup in
  let text := str_lower text in
  let text := replace_char 160 32 text in
  strip (re_sub ws_run_re to_space text).

Section PageText.
(** [requests.get(page_url, ...)], [raise_for_status()] and the parse of the
    content: the tree of the page, or [None] when one of them raises. *)
Variable fetch_soup : pystr -> option node.

Definition get_page_text (page_url : pyobj) : pystr :=
  if negb (truthy page_url) then []
  else
    match page_url with
    | PyStr page_url =>
      match fetch_soup page_url with
      | Some soup => page_text_of_soup soup
      | None => []
      end
    | _ => []
    end.
End PageText.

(** ** [get_doc_text] *)

(** What the Docs API returns, as Python has it once parsed: [None],
    booleans, numbers, strings, lists and dicts, a dict being the list of its
    items. *)
#[warnings="-register-all"]
Inductive json : Type :=
| JNull
| JBool (b : bool)
| JNumber (q : Q)
| JStr (s : pystr)
| JList (l : list json)
| JDict (items : list (pystr * json)).

Definition dict_lookup (key : pystr) (items : list (pystr * json)) : option json :=
  option_map snd (List.find (fun kv => str_eqb (fst kv) key) items).

(** The operations of the loops; [None] stands for an exception, which the
    [try] of [get_doc_text] catches whatever it is. *)

(** [x.get(key, default)] *)
Definition py_get (x : json) (key : pystr) (default : json) : option json :=
  match x with
  | JDict items =>
    match dict_lookup key items with
    | Some v => Some v
    | None => Some default
    end
  | _ => None
  end.

(** [x[key]] for a string [key] *)
Definition py_item (x : json) (key : pystr) : option json :=
  match x with
  | JDict items => dict_lookup key items
  | _ => None
  end.

(** [key in x] for a string [key]: a key of a dict, an element of a list, a
    part of a string *)
Definition py_in (key : pystr) (x : json) : option bool :=
  match x with
  | JDict items => Some (existsb (fun kv => str_eqb (fst kv) key) items)
  | JList l =>
      Some (existsb (fun e => match e with JStr s => str_eqb s key | _ => false end) l)
  | JStr s => Some (contains key s)
  | _ => None
  end.

(** [for e in x]: the elements of a list, the keys of a dict, the characters
    of a string *)
Definition py_iter (x : json) : option (list json) :=
  match x with
  | JList l => Some l
  | JDict items => Some (List.map (fun kv => JStr (fst kv)) items)
  | JStr s => Some (List.map (fun c => JStr [c]) s)
  | _ => None
  end.

(** A loop whose body may raise *)
Fixpoint for_each {A B} (body : A -> B -> option A) (acc : A) (l : list B) : option A :=
  match l with
  | [] => Some acc
  | x :: l' =>
    match body acc x with
    | Some acc' => for_each body acc' l'
    | None => None
    end
  end.

(** [for text_run in paragraph.get('elements', []):] with its body *)
Definition paragraph_runs (text_parts : list json) (paragraph : json) : option (list json) :=
  elements ← py_get paragraph (u "elements") (JList []);
  runs ← py_iter elements;
  for_each (fun text_parts text_run =>
      has ← py_in (u "textRun") text_run;
      if has : bool then
        run ← py_item text_run (u "textRun");
        content ← py_item run (u "content");
        Some (text_parts ++ [content])
      else Some text_parts)
    text_parts runs.

(** [if 'paragraph' in x: for text_run in x['paragraph'].get(...)] *)
Definition paragraph_of (text_parts : list json) (x : json) : option (list json) :=
  has ← py_in (u "paragraph") x;
  if has : bool then
    paragraph ← py_item x (u "paragraph");
    paragraph_runs text_parts paragraph
  else Some text_parts.

(** The three loops over the rows, the cells and the contents of a table *)
Definition table_runs (text_parts : list json) (table : json) : option (list json) :=
  table_rows ← py_get table (u "tableRows") (JList []);
  rows ← py_iter table_rows;
  for_each (fun text_parts row =>
      table_cells ← py_get row (u "tableCells") (JList []);
      cells ← py_iter table_cells;
      for_each (fun text_parts cell =>
          cell_contents ← py_get cell (u "content") (JList []);
          contents ← py_iter cell_contents;
          for_each paragraph_of text_parts contents)
        text_parts cells)
    text_parts rows.

(** The body of [for element in content:] *)
Definition element_runs (text_parts : list json) (element : json) : option (list json) :=
  has_paragraph ← py_in (u "paragraph") element;
  if has_paragraph : bool then
    paragraph ← py_item element (u "paragraph");
    paragraph_runs text_parts paragraph
  else
    has_table ← py_in (u "table") element;
    if has_table : bool then
      table ← py_item element (u "table");
      table_runs text_parts table
    else Some text_parts.

(** [''.join(text_parts)], which raises on a part that is not a string *)
Fixpoint join_parts (text_parts : list json) : option pystr :=
  match text_parts with
  | [] => Some []
  | JStr s :: rest => option_map (app s) (join_parts rest)
  | _ :: _ => None
  end.

(** The body of the [try] from the document on *)
Definition document_text (document : json) : option pystr :=
  body ← py_get document (u "body") (JDict []);
  content ← py_get body (u "content") (JList []);
  elements ← py_iter content;
  text_parts ← for_each element_runs [] elements;
  text ← join_parts text_parts;
  Some (strip (re_sub ws_run_re to_space text)).

Section DocText.
Variable unicode_alnum : N -> bool.
(** [get_docs_service()], which is [None] when the credentials fail; the
    service gives for a document id what
    [documents().get(documentId=doc_id).execute()] returns, or [None] when
    the call raises. *)
Variable docs_service : option (pystr -> option json).

Definition get_doc_text (doc_url : pyobj) : pystr :=
  if negb (truthy doc_url) then []
  else
    match extract_doc_id unicode_alnum doc_url with
    | None => []
    | Some doc_id =>
      if negb (nonempty doc_id) then []
      else
        match docs_service with
        | None => []
        | Some service =>
          match service doc_id with
          | None => []
          | Some document =>
            match document_text document with
            | Some text => text
            | None => []
            end
          end
        end
    end.
End DocText.

(** ** [extract_references_section]: the links of the section *)

(** [re.findall(pattern, s)] for a pattern with no group, or with one group
    around the whole of it: the texts of the matches *)
Definition findall (m : matcher) (s : pystr) : list pystr :=
  List.map (fun se => slice s (fst se) (snd se)) (finditer m s).

(** The class of [full_url_pattern] that is written twice: any character but
    white space and the eleven listed. *)
Definition is_url_char (c : N) : bool :=
  negb (is_space c || (c =? 60) || (c =? 62) || (c =? 34) || (c =? 123) || (c =? 125)
        || (c =? 124) || (c =? 92) || (c =? 94) || (c =? 96) || (c =? 91) || (c =? 93))%N.




Definition is_ascii_alnum (c : N) : bool := is_ascii_alpha c || is_ascii_digit c.

(** [[a-zA-Z0-9-]] *)
Definition is_label_char (c : N) : bool := is_ascii_alnum c || (c =? 45)%N.

(** [domain_pattern]: a letter or digit, the run of letters, digits and
    hyphens after it, which must end at a full stop, two letters or more,
    and a slash with the run of URL characters after it when a slash is
    there.  The run before the full stop cannot give back: what it gives
    back is no full stop. *)
Definition domain_re : matcher := fun _ s =>
  match s with
  | c0 :: r =>
    if is_ascii_alnum c0 then
      let n1 := span_len is_label_char r in
      match drop n1 r with
      | d :: r2 =>
        if (d =? 46)%N then
          let n2 := span_len is_ascii_alpha r2 in
          if 2 <=? n2 then
            let path :=
              match drop n2 r2 with
              | c :: r4 => if (c =? 47)%N then S (span_len is_url_char r4) else 0
              | [] => 0
              end in
            Some (1 + n1 + 1 + n2 + path)
          else None
        else None
      | [] => None
      end
    else None
  | [] => None
  end.







Section References.
(** The page: [requests.get], [raise_for_status] and the parse, [None] when
    one of them raises *)
Variable fetch_soup : pystr -> option node.
(** [urllib.parse.urljoin], [None] when it raises *)
Variable urljoin : pystr -> pystr -> option pystr.





End References.

(** * Specifications *)

(** ** Start markers *)





(** ** URLs *)


Definition none_of (bad : N -> bool) (s : pystr) : bool := forallb (fun c => negb (bad c)) s.


(** ** Reference links *)



(** ** Cleaned text *)

(** No [k] characters of the class [Q] stand in a row in [s]: at every place
    of [s] the run of [Q] that begins there is shorter than [k]. *)
Definition no_run (Q : N -> bool) (k : nat) (s : pystr) : Prop :=
  ∀ a b, s = a ++ b → span_len Q b < k.

(** ** Example pages *)

Definition paragraph (s : string) : node := Tag "p" ∅ [NavigableString s].
Definition anchor (href : string) : node :=
  Tag "a" {[ "href"%string := href ]} [NavigableString "ref"].
Definition reference (href : string) : node := Tag "p" ∅ [anchor href].

(** A container whose header is a short paragraph, with one reference, then
    the heading of the next section and a paragraph of that section.  The
    paragraph is the first element the header search accepts: the search
    does not look at [article] elements. *)
Definition page_with_paragraph_header : node :=
  Tag "[document]" ∅
    [Tag "article" ∅
       [paragraph "References";
        reference "https://one.example.org/a";
        Tag "h2" ∅ [NavigableString "Comments"];
        reference "https://two.example.org/b"]].

(** A container whose header is a heading, the references in a nested block *)
Definition page_with_heading_header : node :=
  Tag "[document]" ∅
    [Tag "div" ∅
       [Tag "h2" ∅ [NavigableString "References"];
        Tag "section" ∅
          [reference "https://one.example.org/a";
           reference "https://two.example.org/b"];
        Tag "h2" ∅ [NavigableString "Comments"]]].

(** ** Example texts *)


Definition thirteen_words : pyobj :=
  PyStr (u "Alpha beta gamma delta epsilon zeta eta theta iota kappa lambda mu nu").


(** ** Lower case *)

(** The characters no rule of [lower] applies to *)
Definition lower_case_letter (r : N) : Prop :=
  (¬ (65 ≤ r ≤ 90) ∧ ¬ (192 ≤ r ≤ 222) ∧ ¬ (1024 ≤ r ≤ 1071) ∧ r ≠ 1216
   ∧ (1120 ≤ r ≤ 1153 ∨ 1162 ≤ r ≤ 1215 ∨ 1232 ≤ r ≤ 1327 → N.even r = false)
   ∧ (1217 ≤ r ≤ 1230 → N.odd r = false))%N.

(** ** Markers *)






(** ** Tidy text *)

(** All white space of [s] is single spaces, none at either end. *)
Definition single_spaced (s : pystr) : Prop :=
  none_of (fun c => is_space c && negb (c =? 32)%N) s = true
  ∧ no_run is_space 2 s
  ∧ strip s = s.

(** The characters the patterns of [clean_text_for_comparison] begin at: the
    angle bracket of a tag, the star, the underscore, the hash sign and the
    square bracket. *)
Definition is_markup (c : N) : bool :=
  ((c =? 60) || (c =? 42) || (c =? 95) || (c =? 35) || (c =? 91))%N.

(** The second statement of the cleaner: [\r\n] and [\r] become [\n]. *)
Definition unify_newlines (s : pystr) : pystr := replace_char 13 10 (replace_crlf s).

(** [no_run], decided *)
Fixpoint no_runb (Q : N → bool) (k : nat) (s : pystr) : bool :=
  (span_len Q s <? k)
  && match s with
     | [] => true
     | _ :: s' => no_runb Q k s'
     end.

(** ** Document ids *)

(** What can stand before a document id in a link *)
Definition doc_id_prefixes : list pystr := [u "/d/"; u "/document/d/"; u "?id="; u "&id="].

(** At index [i] of [url] one of the prefixes stands, and [id] is the run of
    id characters after it, which is not empty. *)
Definition id_at (unicode_alnum : N -> bool) (url : pystr) (i : nat) (id : pystr) : Prop :=
  ∃ pre, pre ∈ doc_id_prefixes
    ∧ take (length pre) (drop i url) = pre
    ∧ id = take (span_len (is_id_char unicode_alnum) (drop (i + length pre) url))
                (drop (i + length pre) url)
    ∧ id ≠ [].

(** ** Page trees *)

(** The tree [root] with [new] in the place of the node at path [p] *)
Fixpoint replace_at (root : node) (p : list nat) (new : node) : node :=
  match p with
  | [] => new
  | i :: p' =>
    match root with
    | Tag name attrs cs =>
        Tag name attrs
          (match cs !! i with
           | Some c => <[i := replace_at c p' new]> cs
           | None => cs
           end)
    | NavigableString _ => root
    end
  end.

(** The scheme [urlsplit] returns is empty, or it is lower-case letters, digits and [+-.]
    after a letter. *)
Definition scheme_form (scheme : pystr) : Prop :=
  scheme = []
  ∨ (head_is_ascii_alpha scheme = true ∧ forallb is_scheme_char scheme = true
     ∧ str_lower scheme = scheme).

(** * Properties *)

(** ** Guards *)

(** C10: on [None], on a value that is not a string and on the empty string
    the two extractors and the cleaner return the empty string; on an input
    whose truth value is false [check_editors_on_page] returns [(False, [])].
    None of them raises there. *)
Theorem guards_return_defaults (x : pyobj) :
  (isinstance_str x = false ∨ truthy x = false) →
  extract_annotation_fragment x = []
  ∧ extract_ukrainian_annotation_fragment x = []
  ∧ clean_text_for_comparison x = []
  ∧ (truthy x = false → check_editors_on_page x = Returns (false, [])).
Proof.
  intros Hx.
  assert (Hg : negb (truthy x) || negb (isinstance_str x) = true).
  { destruct Hx as [-> | ->]; [apply orb_true_r | reflexivity]. }
  unfold extract_annotation_fragment, extract_ukrainian_annotation_fragment,
    clean_text_for_comparison, check_editors_on_page.
  rewrite Hg. repeat split.
  intros ->. reflexivity.
Qed.

Lemma guards_return_defaults_none :
  extract_annotation_fragment PyNone = []
  ∧ extract_ukrainian_annotation_fragment PyNone = []
  ∧ clean_text_for_comparison PyNone = []
  ∧ (truthy PyNone = false → check_editors_on_page PyNone = Returns (false, [])).
Proof. apply (guards_return_defaults PyNone). left. reflexivity. Defined.

(** The guard of [check_editors_on_page] tests the truth value only: on a
    value that is true and not a string the call of [replace] raises. *)
Example check_editors_on_page_number :
  check_editors_on_page (PyInt 5) = Raises "AttributeError".
Proof. reflexivity. Qed.

(** ** The section content *)

(** [find_all] with the seven kinds of the fallback never yields a heading, so
    the test that would end the fallback walk at the next heading never
    holds. *)
Lemma fallback_kind_not_heading (elem : node) :
  name_in fallback_kinds elem = true → name_in heading_names elem = false.
Proof.
  destruct elem as [name attrs cs | s]; [| discriminate].
  cbn [name_in fallback_kinds heading_names existsb]. intros H.
  repeat (apply orb_prop in H as [H | H];
          [apply String.eqb_eq in H; subst name; reflexivity |]).
  discriminate.
Qed.

Lemma find_all_fallback_no_heading (container elem : node) :
  elem ∈ find_all fallback_kinds container → name_in heading_names elem = false.
Proof.
  unfold find_all. rewrite list_elem_of_In, filter_In. intros [_ H].
  by apply fallback_kind_not_heading.
Qed.

(** A header that is itself a heading is never met among these elements, and
    the fallback walk adds nothing. *)
Lemma node_eqb_name (a b : node) :
  node_eqb a b = true → ∀ names, name_in names a = name_in names b.
Proof.
  destruct a as [n1 a1 c1 | s1], b as [n2 a2 c2 | s2]; cbn [node_eqb]; try discriminate.
  - intros H names. apply andb_prop in H as [H _]. apply andb_prop in H as [H _].
    apply String.eqb_eq in H. by subst.
  - reflexivity.
Qed.

Lemma walk_container_heading_header (section_header : node) (elems content : list node)
    (count : nat) :
  name_in heading_names section_header = true →
  Forall (fun e => name_in fallback_kinds e = true) elems →
  walk_container section_header elems false count content = content.
Proof.
  intros Hh Hall. induction Hall as [| e elems He _ IH]; [reflexivity |].
  cbn [walk_container].
  destruct (node_eqb e section_header) eqn:E.
  - apply node_eqb_name with (names := heading_names) in E.
    rewrite (fallback_kind_not_heading e He), Hh in E. discriminate.
  - cbn. exact IH.
Qed.

(** The sibling walk does stop at the next heading, and collects at most
    [max_elements] elements. *)
Lemma walk_siblings_stops_at_heading (before after : list node) (heading : node)
    (count : nat) (content : list node) :
  Forall (fun n => node_truthy n = true ∧ name_in heading_names n = false) before →
  name_in heading_names heading = true →
  walk_siblings (before ++ heading :: after) count content
  = walk_siblings (before ++ [heading]) count content.
Proof.
  intros Hb Hh. revert count content.
  induction Hb as [| n before [Ht Hn] _ IH]; intros count content.
  - cbn [app walk_siblings]. destruct heading as [name attrs cs | s]; [| discriminate].
    cbn [node_truthy andb]. rewrite Hh. reflexivity.
  - cbn [app walk_siblings]. rewrite Ht. cbn [andb].
    destruct (count <? max_elements); [| reflexivity].
    destruct n as [name attrs cs | s]; [| apply IH].
    rewrite Hn. destruct (name_in sibling_kinds _); apply IH.
Qed.

Lemma walk_siblings_cap (siblings : list node) (count : nat) (content : list node) :
  length (walk_siblings siblings count content) ≤ length content + (max_elements - count).
Proof.
  revert count content. induction siblings as [| n siblings IH]; intros count content;
    cbn [walk_siblings]; [lia |].
  destruct (node_truthy n); cbn [andb]; [| lia].
  destruct (Nat.ltb_spec count max_elements) as [Hc | Hc]; [| lia].
  destruct n as [name attrs cs | s]; [| apply IH].
  destruct (name_in heading_names _); [lia |].
  destruct (name_in sibling_kinds _); [| apply IH].
  specialize (IH (S count) (content ++ [Tag name attrs cs])).
  rewrite length_app in IH. cbn [length] in IH. lia.
Qed.

(** C6: on a page whose header is a short paragraph, the sibling walk stops
    at the heading of the next section with one element, and the fallback
    walk then goes past that heading and collects the paragraph and the link
    that follow it; on a page whose header is a heading, the fallback walk
    collects nothing besides what the sibling walk found. *)
Theorem fallback_walk_ignores_headings :
  locate_section_header page_with_paragraph_header = Some [0; 0]
  ∧ locate_section_header page_with_heading_header = Some [0; 0]
  ∧ walk_siblings (next_siblings page_with_paragraph_header [0; 0]) 0 []
    = [reference "https://one.example.org/a"]
  ∧ collect_section_content page_with_paragraph_header [0; 0]
    = [reference "https://one.example.org/a"; anchor "https://one.example.org/a";
       reference "https://two.example.org/b"; anchor "https://two.example.org/b"]
  ∧ collect_section_content page_with_heading_header [0; 0]
    = [Tag "section" ∅
         [reference "https://one.example.org/a"; reference "https://two.example.org/b"]].
Proof. repeat split; vm_compute; reflexivity. Qed.

(** ** Chunking *)

Lemma range_from_lookup (stop step : nat) :
  1 ≤ step →
  ∀ fuel i k, stop - i ≤ fuel →
    range_from fuel i stop step !! k
    = if i + k * step <? stop then Some (i + k * step) else None.
Proof.
  intros Hstep. induction fuel as [| fuel IH]; intros i k Hfuel; cbn [range_from].
  - destruct (Nat.ltb_spec (i + k * step) stop); [lia | reflexivity].
  - destruct (Nat.ltb_spec i stop) as [Hi | Hi].
    + destruct k as [| k]; cbn [lookup list_lookup].
      * rewrite Nat.add_0_r. destruct (Nat.ltb_spec i stop); [reflexivity | lia].
      * rewrite IH by lia. replace (i + step + k * step) with (i + S k * step) by lia.
        reflexivity.
    + destruct (Nat.ltb_spec (i + k * step) stop); [lia | reflexivity].
Qed.

Lemma py_range_lookup (stop step k : nat) :
  1 ≤ step →
  py_range stop step !! k = if k * step <? stop then Some (k * step) else None.
Proof. intros H. unfold py_range. rewrite range_from_lookup by lia. reflexivity. Qed.

Lemma flat_map_none {A B} (f : A → list B) (l : list A) :
  Forall (fun x => f x = []) l → flat_map f l = [].
Proof. induction 1 as [| x l Hx _ IH]; cbn; [reflexivity |]. by rewrite Hx, IH. Qed.

(** A test that, once it fails on an element, fails on all later ones keeps a
    prefix of the list. *)
Lemma flat_map_keep_prefix {A} (keep : nat → bool) (mk : nat → A) (R : list nat) :
  (∀ j j' x y, j ≤ j' → R !! j = Some x → R !! j' = Some y →
               keep y = true → keep x = true) →
  ∀ k, flat_map (fun x => if keep x then [mk x] else []) R !! k
       = R !! k ≫= (fun x => if keep x then Some (mk x) else None).
Proof.
  induction R as [| x R IH]; intros Hmono k; [reflexivity |].
  cbn [flat_map]. destruct (keep x) eqn:Kx.
  - destruct k as [| k]; cbn; [by rewrite Kx |].
    apply IH. intros j j' a b Hj Ha Hb. apply (Hmono (S j) (S j')); [lia | done | done].
  - rewrite flat_map_none.
    + destruct k as [| k]; cbn; [by rewrite Kx |].
      destruct (R !! k) as [y |] eqn:Ey; [| reflexivity]. cbn.
      destruct (keep y) eqn:Ky; [| reflexivity].
      rewrite (Hmono 0 (S k) x y) in Kx; [discriminate | lia | done | done | done].
    + apply Forall_forall. intros y Hy. apply list_elem_of_lookup in Hy as [j Hj].
      destruct (keep y) eqn:Ky; [| reflexivity].
      rewrite (Hmono 0 (S j) x y) in Kx; [discriminate | lia | done | done | done].
Qed.

Lemma chunk_step_pos (chunk_size : nat) : 1 ≤ chunk_step chunk_size.
Proof. unfold chunk_step. lia. Qed.

Lemma window_length {A} (l : list A) (n off : nat) :
  length (take n (drop off l)) = Nat.min n (length l - off).
Proof. rewrite length_take, length_drop. reflexivity. Qed.

(** The [k]-th element of [chunks] is made of the window at offset [k * step],
    if that window has ten words, and there is no [k]-th element otherwise. *)
Lemma make_chunks_lookup (words orig_words_clean : list pystr) (chunk_size k : nat) :
  let i := k * chunk_step chunk_size in
  let chunk_words := take chunk_size (drop i words) in
  make_chunks words orig_words_clean chunk_size !! k
  = if 10 <=? length chunk_words then
      Some {| original :=
                match (if i <? length orig_words_clean
                       then take chunk_size (drop i orig_words_clean) else []) with
                | [] => join chunk_words
                | w :: ws => join (w :: ws)
                end;
              normalized := join chunk_words |}
    else None.
Proof.
  intros i chunk_words. unfold make_chunks.
  pose proof (chunk_step_pos chunk_size) as Hstep.
  set (keep := fun i => min_words_threshold <=? length (take chunk_size (drop i words))).
  set (mk := fun i =>
    {| original :=
         match (if i <? length orig_words_clean
                then take chunk_size (drop i orig_words_clean) else []) with
         | [] => join (take chunk_size (drop i words))
         | w :: ws => join (w :: ws)
         end;
       normalized := join (take chunk_size (drop i words)) |}).
  transitivity (flat_map (fun x => if keep x then [mk x] else [])
                  (py_range (length words) (chunk_step chunk_size)) !! k).
  { f_equal. apply flat_map_ext. intros a. unfold keep, mk.
    destruct (min_words_threshold <=? _); [| reflexivity].
    destruct (if a <? length orig_words_clean then _ else _); reflexivity. }
  rewrite flat_map_keep_prefix.
  - rewrite py_range_lookup by done. fold i.
    destruct (Nat.ltb_spec i (length words)) as [Hi | Hi]; cbn [mbind option_bind].
    + unfold keep, mk, min_words_threshold. fold chunk_words. reflexivity.
    + subst chunk_words. destruct (Nat.leb_spec 10 (length (take chunk_size (drop i words))));
        [| reflexivity].
      rewrite window_length in *. lia.
  - intros j j' x y Hj. rewrite !py_range_lookup by done.
    destruct (_ <? _); [| discriminate]. destruct (_ <? _); [| discriminate].
    intros [= <-] [= <-]. unfold keep, min_words_threshold.
    rewrite !Nat.leb_le, !window_length.
    assert (j * chunk_step chunk_size ≤ j' * chunk_step chunk_size) by nia. lia.
Qed.

(** ** Characters *)

Ltac bool_to_prop :=
  repeat match goal with
  | H : _ && _ = true |- _ => apply andb_prop in H as [? ?]
  | H : _ || _ = false |- _ => apply orb_false_elim in H as [? ?]
  | H : negb _ = true |- _ => apply negb_true_iff in H
  | H : negb _ = false |- _ => apply negb_false_iff in H
  | H : (_ <=? _)%N = true |- _ => apply N.leb_le in H
  | H : (_ <=? _)%N = false |- _ => apply N.leb_gt in H
  | H : (_ <? _)%N = true |- _ => apply N.ltb_lt in H
  | H : (_ <? _)%N = false |- _ => apply N.ltb_ge in H
  | H : (_ =? _)%N = true |- _ => apply N.eqb_eq in H
  | H : (_ =? _)%N = false |- _ => apply N.eqb_neq in H
  end.

(** [lower] moves letters only, and moves them to letters. *)
Lemma lower_cases (c : N) :
  lower c = c
  ∨ ((65 ≤ c ≤ 90 ∨ 192 ≤ c ≤ 222 ∨ 1024 ≤ c ≤ 1327)
     ∧ (97 ≤ lower c ≤ 122 ∨ 224 ≤ lower c ≤ 254 ∨ 1072 ≤ lower c ≤ 1328))%N.
Proof.
  unfold lower.
  repeat match goal with
  | |- context [if ?b then _ else _] => destruct b eqn:?; [right; bool_to_prop; lia |]
  end.
  left. reflexivity.
Qed.

Lemma is_space_letter (c : N) :
  (65 ≤ c ≤ 122 ∨ 192 ≤ c ≤ 254 ∨ 1024 ≤ c ≤ 1328)%N → is_space c = false.
Proof.
  intros Hc. apply not_true_is_false. unfold is_space. intros Hs.
  repeat (apply orb_prop in Hs as [Hs | Hs]); bool_to_prop; lia.
Qed.

Lemma is_space_lower (c : N) : is_space (lower c) = is_space c.
Proof.
  destruct (lower_cases c) as [-> | [Hc Hl]]; [reflexivity |].
  rewrite !is_space_letter by lia. reflexivity.
Qed.


(** ** Words *)

Lemma split_go_lower (cur s : pystr) :
  split_go (str_lower cur) (str_lower s) = List.map str_lower (split_go cur s).
Proof.
  revert cur. induction s as [| c s IH]; intros cur; cbn [str_lower List.map split_go].
  - destruct cur as [| a cur]; [reflexivity |].
    unfold str_lower. cbn [List.map split_go]. rewrite map_rev. reflexivity.
  - rewrite is_space_lower. destruct (is_space c).
    + destruct cur as [| a cur]; [apply (IH []) |].
      cbn [List.map]. rewrite <- (IH []). unfold str_lower. cbn [List.map].
      rewrite map_rev. reflexivity.
    + apply (IH (c :: cur)).
Qed.

Lemma split_lower (s : pystr) : split (str_lower s) = List.map str_lower (split s).
Proof. apply (split_go_lower [] s). Qed.


(** C2: the words of the cleaned fragment are cut into windows, window [i]
    starting at word [i * stride] with [stride = max 1 (chunk_size * 4 / 5)]
    and holding at most [chunk_size] words.  Window [i] is the [i]-th chunk
    when it has ten words or more, its text being the words of the window and
    nothing else; a window with fewer words leaves no chunk. *)
Theorem chunk_windows (doc_fragment : pyobj) (chunk_size : nat) :
  let words := split (str_lower (clean_text_for_comparison doc_fragment)) in
  let stride := Nat.max 1 (chunk_size * 4 / 5) in
  let window := fun i => take chunk_size (drop (i * stride) words) in
  let chunks := fragment_chunks doc_fragment chunk_size in
  ∀ i, length (window i) ≤ chunk_size
       ∧ match chunks !! i with
         | Some c => 10 ≤ length (window i) ∧ normalized c = join (window i)
         | None => length (window i) < 10
         end.
Proof.
  intros words stride window chunks i. split.
  { unfold window. rewrite length_take. lia. }
  unfold chunks, fragment_chunks. rewrite make_chunks_lookup.
  fold words. change (chunk_step chunk_size) with stride. fold (window i).
  destruct (Nat.leb_spec 10 (length (window i))); [split; [done | reflexivity] | done].
Qed.

(** ** Aggregation *)

Lemma py_min_fold (l : list Q) (m : Q) :
  let r := fold_left (fun m y => if Qle_bool m y then m else y) l m in
  In r (m :: l) ∧ (r <= m)%Q ∧ Forall (fun y => (r <= y)%Q) l.
Proof.
  revert m. induction l as [| y l IH]; intros m; cbn [fold_left].
  - split; [by left |]. split; [apply Qle_refl | constructor].
  - destruct (Qle_bool m y) eqn:E.
    + apply Qle_bool_iff in E. destruct (IH m) as (Hin & Hle & Hall).
      split; [destruct Hin as [<- | Hin]; [by left | by right; right] |].
      split; [exact Hle |]. constructor; [| exact Hall].
      by apply Qle_trans with m.
    + assert (Hym : (y <= m)%Q).
      { apply Qlt_le_weak, Qnot_le_lt. intros H. apply Qle_bool_iff in H. congruence. }
      destruct (IH y) as (Hin & Hle & Hall).
      split; [by right |]. split; [by apply Qle_trans with y |].
      constructor; [exact Hle | exact Hall].
Qed.

Lemma py_min_spec (x : Q) (l : list Q) :
  In (py_min (x :: l)) (x :: l) ∧ Forall (fun y => (py_min (x :: l) <= y)%Q) (x :: l).
Proof.
  cbn [py_min]. destruct (py_min_fold l x) as (Hin & Hle & Hall).
  split; [exact Hin |]. constructor; [exact Hle | exact Hall].
Qed.






Lemma make_chunks_nil (orig_words_clean : list pystr) (chunk_size : nat) :
  make_chunks [] orig_words_clean chunk_size = [].
Proof. reflexivity. Qed.

Section CompareProperties.
Variable token_set_ratio : pystr → pystr → Q.

(** What [compare_texts] returns once the guards are passed *)
Lemma compare_texts_scored (doc_fragment page_text : pyobj) (threshold : Q)
    (chunk_size : nat) :
  truthy page_text = true →
  fragment_chunks doc_fragment chunk_size ≠ [] →
  let chunks := fragment_chunks doc_fragment chunk_size in
  let page := str_lower (clean_text_for_comparison page_text) in
  let scores := List.map (chunk_score token_set_ratio page) chunks in
  compare_texts token_set_ratio doc_fragment page_text threshold chunk_size
  = (py_min scores, (py_sum scores / inject_Z (Z.of_nat (length scores)))%Q,
     missing_of token_set_ratio page threshold chunks).
Proof.
  intros Hp Hc chunks page scores. unfold compare_texts. rewrite Hp.
  destruct (truthy doc_fragment) eqn:Hd.
  - cbn [negb orb].
    destruct (split (str_lower (clean_text_for_comparison doc_fragment))) eqn:Ew.
    + exfalso. apply Hc. unfold fragment_chunks. rewrite Ew. apply make_chunks_nil.
    + fold chunks. destruct chunks eqn:Ec; [done | reflexivity].
  - exfalso. apply Hc. unfold fragment_chunks, clean_text_for_comparison.
    rewrite Hd. reflexivity.
Qed.

Lemma compare_texts_zero (doc_fragment page_text : pyobj) (threshold : Q)
    (chunk_size : nat) :
  truthy doc_fragment = false ∨ truthy page_text = false
    ∨ fragment_chunks doc_fragment chunk_size = [] →
  compare_texts token_set_ratio doc_fragment page_text threshold chunk_size = zero_result.
Proof.
  intros H. unfold compare_texts.
  destruct (truthy doc_fragment) eqn:Hd; [| reflexivity].
  destruct (truthy page_text) eqn:Hp; [| reflexivity]. cbn [negb orb].
  destruct H as [H | [H | H]]; [done | done |].
  destruct (split _); [reflexivity |]. rewrite H. reflexivity.
Qed.


End CompareProperties.


(** ** Matching a word, letter case apart *)


Lemma startswith_spec (p s : pystr) :
  startswith p s = true ↔ take (length p) s = p.
Proof.
  revert s. induction p as [| a p IH]; intros s; cbn [startswith length take].
  - split; [reflexivity | done].
  - destruct s as [| c s]; cbn [take]; [split; discriminate |].
    rewrite andb_true_iff, N.eqb_eq, IH.
    split; [intros [-> ->]; reflexivity | intros [= -> ->]; done].
Qed.

Lemma contains_spec (p s : pystr) :
  contains p s = true ↔ ∃ k, take (length p) (drop k s) = p.
Proof.
  induction s as [| c s IH].
  - cbn [contains]. rewrite orb_false_r, startswith_spec. split.
    + intros H. by exists 0.
    + intros [k H]. by rewrite drop_nil in H.
  - cbn [contains]. rewrite orb_true_iff, startswith_spec, IH. split.
    + intros [H | [k H]]; [by exists 0 | by exists (S k)].
    + intros [[| k] H]; [by left | right; by exists k].
Qed.






(** ** The scanning loops on a pattern that reads no context and whose
    matches cannot overlap *)

Section Scan.
Variable m : matcher.
Hypothesis m_context_free : ∀ prev prev' s, m prev s = m prev' s.
Hypothesis m_positive : ∀ prev s, m prev s ≠ Some 0.
Hypothesis m_no_overlap :
  ∀ prev s n, m prev s = Some n → ∀ j, 0 < j < n → m None (drop j s) = None.



(** [search] finds nothing exactly when the pattern matches nowhere from
    [pos] on; what it finds is the leftmost match. *)
Lemma search_go_spec (s : pystr) :
  ∀ pos prev,
  match search_go m pos prev s with
  | Some (a, b) =>
      ∃ j, a = pos + j ∧ m None (drop j s) = Some (b - a)
           ∧ ∀ j', j' < j → m None (drop j' s) = None
  | None => ∀ j, j < length s → m None (drop j s) = None
  end.
Proof.
  induction s as [| c s IH]; intros pos prev; cbn [search_go].
  { intros j Hj. cbn in Hj. lia. }
  specialize (IH (S pos) (Some c)).
  destruct (m prev (c :: s)) as [[| k] |] eqn:E.
  - by apply m_positive in E.
  - exists 0. rewrite Nat.add_0_r. split; [done |]. split.
    + cbn [drop]. rewrite (m_context_free None prev), E. f_equal. lia.
    + intros j' Hj'. lia.
  - rewrite (m_context_free prev None) in E.
    destruct (search_go m (S pos) (Some c) s) as [[a b] |].
    + destruct IH as (j & -> & Hm & Hmin). exists (S j).
      split; [lia |]. split; [exact Hm |].
      intros [| j'] Hj'; [exact E | apply Hmin; lia].
    + intros [| j] Hj; [exact E | apply IH; cbn in Hj; lia].
Qed.
End Scan.

(** ** The start markers cannot overlap *)










(** ** The look-back window *)










(** ** No start marker *)







(** ** Parsing a URL written from its parts *)

Lemma none_of_weaken (bad bad' : N → bool) (s : pystr) :
  (∀ c, bad' c = true → bad c = true) → none_of bad s = true → none_of bad' s = true.
Proof.
  intros Hw. unfold none_of. rewrite !forallb_forall. intros H c Hc.
  specialize (H c Hc). destruct (bad' c) eqn:E; [| reflexivity].
  by rewrite (Hw c E) in H.
Qed.


Lemma none_of_app (bad : N → bool) (a b : pystr) :
  none_of bad (a ++ b) = none_of bad a && none_of bad b.
Proof. apply forallb_app. Qed.

Lemma find_char_app_here (c : N) (a b : pystr) :
  none_of (fun x => (x =? c)%N) a = true → find_char c (a ++ c :: b) = Some (length a).
Proof.
  induction a as [| x a IH]; cbn [none_of forallb app find_char length].
  - by rewrite N.eqb_refl.
  - intros H. apply andb_prop in H as [Hx Ha]. apply negb_true_iff in Hx.
    rewrite Hx. unfold none_of in IH. by rewrite IH.
Qed.



Lemma span_len_app_stop (f : N → bool) (a b : pystr) :
  forallb f a = true →
  match b with [] => True | x :: _ => f x = false end →
  span_len f (a ++ b) = length a.
Proof.
  intros Ha Hb. induction a as [| x a IH]; cbn [app span_len length].
  - destruct b as [| y b]; [reflexivity |]. cbn [span_len]. by rewrite Hb.
  - cbn [forallb] in Ha. apply andb_prop in Ha as [Hx Ha]. rewrite Hx, IH; done.
Qed.

Lemma filter_all (f : N → bool) (l : pystr) : forallb f l = true → List.filter f l = l.
Proof.
  induction l as [| x l IH]; cbn [forallb List.filter]; [done |].
  intros H. apply andb_prop in H as [Hx Hl]. by rewrite Hx, IH.
Qed.

Lemma scheme_char_plain (c : N) :
  is_scheme_char c = true →
  (c =? 58)%N = false ∧ is_unsafe_url_byte c = false ∧ is_c0_or_space c = false.
Proof.
  unfold is_scheme_char, is_ascii_alpha, is_ascii_digit, is_unsafe_url_byte, is_c0_or_space.
  intros H.
  assert (Hc : (43 ≤ c)%N).
  { repeat (apply orb_prop in H as [H | H]); bool_to_prop; lia. }
  repeat split; [apply N.eqb_neq | | apply N.leb_gt; lia].
  - intros ->. vm_compute in H. discriminate.
  - rewrite !orb_false_iff, !N.eqb_neq. lia.
Qed.

Lemma startswith_app (p s : pystr) : startswith p (p ++ s) = true.
Proof. apply startswith_spec. by rewrite take_app_length. Qed.

Lemma drop_after (a : pystr) (c : N) (b : pystr) : drop (S (length a)) (a ++ c :: b) = b.
Proof. induction a as [| x a IH]; [reflexivity | exact IH]. Qed.

Lemma head_alpha_app (s r : pystr) :
  head_is_ascii_alpha s = true →
  head_is_ascii_alpha (s ++ r) = true ∧ lstrip_c0 (s ++ r) = s ++ r ∧ 0 < length s.
Proof.
  destruct s as [| c s]; [discriminate |]. cbn [head_is_ascii_alpha app lstrip_c0 length].
  intros H. split; [done |]. split; [| lia].
  assert (Hc : is_c0_or_space c = false); [| by rewrite Hc].
  unfold is_ascii_alpha in H. unfold is_c0_or_space. apply N.leb_gt.
  apply orb_prop in H as [H | H]; bool_to_prop; lia.
Qed.










(** ** The order of [sorted] *)

Lemma str_leb_total (a b : pystr) : str_leb a b = true ∨ str_leb b a = true.
Proof.
  revert b. induction a as [| x a IH]; intros b; [by left |].
  destruct b as [| y b]; [by right |]. cbn [str_leb].
  destruct (N.lt_trichotomy x y) as [H | [H | H]].
  - left. apply N.ltb_lt in H. by rewrite H.
  - subst y. rewrite N.eqb_refl, N.ltb_irrefl. cbn [orb andb]. apply IH.
  - right. apply N.ltb_lt in H. by rewrite H.
Qed.

#[local] Instance str_le_total : Total str_le.
Proof. intros a b. apply str_leb_total. Qed.

(** ** What one link adds *)


Lemma span_len_take_forall (f : N → bool) (s : pystr) :
  forallb f (take (span_len f s) s) = true.
Proof.
  induction s as [| c s IH]; [reflexivity |]. cbn [span_len].
  destruct (f c) eqn:E; [| reflexivity]. cbn [take forallb]. by rewrite E, IH.
Qed.

Ltac destruct_let_pair :=
  match goal with
  | |- context [let '(_, _) := ?x in _] => destruct x eqn:?
  end.

Lemma urlsplit_netloc_no_delim (url scheme netloc path query fragment : pystr) :
  urlsplit url = Some (scheme, netloc, path, query, fragment) →
  none_of is_netloc_delim netloc = true.
Proof.
  unfold urlsplit. destruct_let_pair.
  destruct (startswith (u "//") _).
  - destruct (_ || _); [discriminate |]. repeat destruct_let_pair.
    intros [= _ <- _ _ _]. apply span_len_take_forall.
  - destruct (_ || _); [discriminate |]. repeat destruct_let_pair.
    intros [= _ <- _ _ _]. reflexivity.
Qed.




Lemma none_of_drop (bad : N → bool) (n : nat) (s : pystr) :
  none_of bad s = true → none_of bad (drop n s) = true.
Proof.
  revert n. induction s as [| c s IH]; intros [| n] H; try done.
  cbn [drop]. apply IH. cbn [none_of forallb] in H. by apply andb_prop in H as [_ H].
Qed.








(** ** The cleaner on a text it has cleaned *)

(** *** Substitutions that find nothing *)

Lemma sub_go_unchanged (m : matcher) (repl : pystr → pystr) (s : pystr) :
  ∀ prev,
  m prev s = None →
  (∀ a c b, s = a ++ c :: b → m (Some c) b = None) →
  sub_go m repl 0 prev s = s.
Proof.
  induction s as [| c s IH]; intros prev H0 Hrest; [reflexivity |].
  cbn [sub_go]. rewrite H0. f_equal. apply IH.
  - apply (Hrest [] c s). reflexivity.
  - intros a c' b ->. apply (Hrest (c :: a) c' b). reflexivity.
Qed.

Lemma none_of_suffix (bad : N → bool) (a b : pystr) :
  none_of bad (a ++ b) = true → none_of bad b = true.
Proof. rewrite none_of_app. intros H. by apply andb_prop in H as [_ H]. Qed.

Lemma sub_no_trigger (m : matcher) (repl : pystr → pystr) (trig : N → bool) (s : pystr) :
  (∀ prev c r, trig c = false → m prev (c :: r) = None) →
  (∀ prev, m prev [] = None) →
  none_of trig s = true →
  re_sub m repl s = s.
Proof.
  intros Hm Hnil Hs.
  assert (Hany : ∀ prev b, none_of trig b = true → m prev b = None).
  { intros prev [| d r] Hb; [apply Hnil |]. apply Hm.
    cbn [none_of forallb] in Hb. apply andb_prop in Hb as [Hd _].
    by apply negb_true_iff in Hd. }
  apply sub_go_unchanged; [by apply Hany |].
  intros a c b ->. apply Hany.
  apply (none_of_suffix trig (a ++ [c]) b). by rewrite <- app_assoc.
Qed.

Lemma tag_re_trigger (prev : option N) (c : N) (r : pystr) :
  (c =? 60)%N = false → tag_re prev (c :: r) = None.
Proof. intros H. unfold tag_re. by rewrite H. Qed.

Lemma strong_re_trigger (prev : option N) (c : N) (r : pystr) :
  (c =? 42)%N || (c =? 95)%N = false → strong_re prev (c :: r) = None.
Proof.
  intros H. apply orb_false_elim in H as [H1 H2]. unfold strong_re.
  destruct r as [| b r]; [reflexivity |]. by rewrite H1, H2.
Qed.

Lemma lone_star_re_trigger (prev : option N) (c : N) (r : pystr) :
  (c =? 42)%N = false → lone_star_re prev (c :: r) = None.
Proof. intros H. unfold lone_star_re. by rewrite H. Qed.

Lemma underscore_re_trigger (prev : option N) (c : N) (r : pystr) :
  (c =? 95)%N = false → underscore_re prev (c :: r) = None.
Proof. intros H. unfold underscore_re. by rewrite H. Qed.

Lemma footnote_re_trigger (prev : option N) (c : N) (r : pystr) :
  (c =? 91)%N = false → footnote_re prev (c :: r) = None.
Proof. intros H. unfold footnote_re. by rewrite H. Qed.

Lemma replace_char_unchanged (a b : N) (s : pystr) :
  none_of (fun c => (c =? a)%N) s = true → replace_char a b s = s.
Proof.
  induction s as [| c s IH]; [reflexivity |]. cbn [none_of forallb replace_char List.map].
  intros H. apply andb_prop in H as [Hc Hs]. apply negb_true_iff in Hc.
  rewrite Hc. f_equal. by apply IH.
Qed.


(** *** Runs *)

Lemma no_run_tail (Q : N → bool) (k : nat) (c : N) (s : pystr) :
  no_run Q k (c :: s) → no_run Q k s.
Proof. intros H a b ->. apply (H (c :: a) b). reflexivity. Qed.

Lemma no_run_cons (Q : N → bool) (k : nat) (c : N) (s : pystr) :
  span_len Q (c :: s) < k → no_run Q k s → no_run Q k (c :: s).
Proof.
  intros Hc Hs [| x a] b E.
  - cbn in E. by subst b.
  - injection E as -> ->. by apply (Hs a b).
Qed.

Lemma no_run_nil (Q : N → bool) (k : nat) : 0 < k → no_run Q k [].
Proof.
  intros Hk a b E. symmetry in E. apply app_eq_nil in E as [_ ->]. exact Hk.
Qed.

Lemma no_run_suffix (Q : N → bool) (k : nat) (a s : pystr) :
  no_run Q k (a ++ s) → no_run Q k s.
Proof. intros H a' b ->. apply (H (a ++ a') b). by rewrite app_assoc. Qed.

Lemma span_len_app_le (Q : N → bool) (b r : pystr) : span_len Q b ≤ span_len Q (b ++ r).
Proof.
  induction b as [| c b IH]; cbn [span_len app]; [lia |].
  destruct (Q c); lia.
Qed.

Lemma no_run_prefix (Q : N → bool) (k : nat) (s r : pystr) :
  no_run Q k (s ++ r) → no_run Q k s.
Proof.
  intros H a b ->. specialize (H a (b ++ r)).
  pose proof (span_len_app_le Q b r). rewrite <- app_assoc in H.
  specialize (H eq_refl). lia.
Qed.

(** Replacing matches by one space makes no run longer, for a class the
    space is not in. *)
Lemma sub_space_span_le (m : matcher) (Q : N → bool) (s : pystr) :
  Q 32%N = false →
  ∀ prev, span_len Q (sub_go m to_space 0 prev s) ≤ span_len Q s.
Proof.
  intros HQ. induction s as [| c s IH]; intros prev; [reflexivity |].
  cbn [sub_go]. destruct (m prev (c :: s)) as [[| k] |].
  - cbn [span_len]. specialize (IH (Some c)). destruct (Q c); lia.
  - cbn [to_space app span_len]. rewrite HQ. lia.
  - cbn [span_len]. specialize (IH (Some c)). destruct (Q c); lia.
Qed.


Lemma replace_char_span_le (a : N) (Q : N → bool) (s : pystr) :
  Q 32%N = false → span_len Q (replace_char a 32 s) ≤ span_len Q s.
Proof.
  intros HQ. induction s as [| c s IH]; [reflexivity |].
  cbn [replace_char List.map span_len]. fold (replace_char a 32 s).
  destruct (c =? a)%N; [rewrite HQ; lia |]. destruct (Q c); lia.
Qed.

Lemma replace_char_no_run (a : N) (Q : N → bool) (k : nat) (s : pystr) :
  Q 32%N = false → no_run Q k s → no_run Q k (replace_char a 32 s).
Proof.
  intros HQ. induction s as [| c s IH]; intros Hs; [done |].
  change (replace_char a 32 (c :: s))
    with ((if (c =? a)%N then 32%N else c) :: replace_char a 32 s).
  apply no_run_cons; [| by apply IH, (no_run_tail Q k c)].
  pose proof (Hs [] (c :: s) eq_refl) as Hc. cbn [span_len] in Hc |- *.
  pose proof (replace_char_span_le a Q s HQ).
  destruct (c =? a)%N; [rewrite HQ; lia |]. destruct (Q c); lia.
Qed.

(** *** Stripping *)

Lemma lstrip_suffix (s : pystr) : ∃ a, s = a ++ lstrip s.
Proof.
  induction s as [| c s [a IH]]; [by exists [] |]. cbn [lstrip].
  destruct (is_space c); [| by exists []].
  exists (c :: a). cbn [app]. by rewrite <- IH.
Qed.

Lemma rstrip_prefix (s : pystr) : ∃ r, s = rstrip s ++ r.
Proof.
  unfold rstrip. destruct (lstrip_suffix (rev s)) as [a Ha].
  exists (rev a). rewrite <- rev_app_distr, <- Ha. by rewrite rev_involutive.
Qed.

Lemma strip_no_run (Q : N → bool) (k : nat) (s : pystr) :
  no_run Q k s → no_run Q k (strip s).
Proof.
  intros H. unfold strip.
  destruct (rstrip_prefix (lstrip s)) as [r Hr]. destruct (lstrip_suffix s) as [a Ha].
  apply (no_run_prefix Q k _ r). rewrite <- Hr. apply (no_run_suffix Q k a). by rewrite <- Ha.
Qed.

Lemma strip_none_of (bad : N → bool) (s : pystr) :
  none_of bad s = true → none_of bad (strip s) = true.
Proof.
  intros H. unfold strip.
  destruct (rstrip_prefix (lstrip s)) as [r Hr]. destruct (lstrip_suffix s) as [a Ha].
  rewrite Ha, none_of_app in H. apply andb_prop in H as [_ H].
  rewrite Hr, none_of_app in H. by apply andb_prop in H as [H _].
Qed.

Lemma lstrip_idempotent (s : pystr) : lstrip (lstrip s) = lstrip s.
Proof.
  induction s as [| c s IH]; [reflexivity |]. cbn [lstrip].
  destruct (is_space c) eqn:E; [exact IH |]. cbn [lstrip]. by rewrite E.
Qed.

Lemma lstrip_app_nonspace (x : pystr) (c : N) :
  is_space c = false → lstrip (x ++ [c]) = lstrip x ++ [c].
Proof.
  intros Hc. induction x as [| d x IH]; cbn [app lstrip]; [by rewrite Hc |].
  destruct (is_space d); [exact IH | reflexivity].
Qed.

Lemma rstrip_cons_nonspace (c : N) (w : pystr) :
  is_space c = false → rstrip (c :: w) = c :: rstrip w.
Proof.
  intros Hc. unfold rstrip. cbn [rev]. rewrite lstrip_app_nonspace by done.
  rewrite rev_app_distr. reflexivity.
Qed.

Lemma strip_strip (s : pystr) : strip (strip s) = strip s.
Proof.
  unfold strip. set (w := lstrip s).
  assert (Hw : lstrip w = w) by apply lstrip_idempotent.
  assert (Hl : lstrip (rstrip w) = rstrip w).
  { destruct w as [| c w']; [reflexivity |]. cbn [lstrip] in Hw.
    destruct (is_space c) eqn:E.
    - exfalso. destruct (lstrip_suffix w') as [a Ha].
      apply (f_equal length) in Ha. apply (f_equal length) in Hw.
      rewrite length_app in Ha. cbn [length] in Hw. lia.
    - rewrite rstrip_cons_nonspace by done. cbn [lstrip]. by rewrite E. }
  rewrite Hl. unfold rstrip. by rewrite rev_involutive, lstrip_idempotent.
Qed.

(** *** Runs of dashes and of dots *)

Lemma run_sub_no_run (m : matcher) (Q : N → bool) (k : nat) (s : pystr) :
  (∀ prev s, m prev s = if k <=? span_len Q s then Some (span_len Q s) else None) →
  Q 32%N = false → 0 < k →
  ∀ skip prev, no_run Q k (sub_go m to_space skip prev s).
Proof.
  intros Hm HQ Hk. induction s as [| c s IH]; intros skip prev; [by apply no_run_nil |].
  cbn [sub_go]. destruct skip as [| j]; [| apply IH].
  rewrite Hm. destruct (Nat.leb_spec k (span_len Q (c :: s))) as [Hn | Hn].
  - destruct (span_len Q (c :: s)) as [| j]; [lia |].
    cbn [to_space app]. apply no_run_cons; [| apply IH]. cbn [span_len]. by rewrite HQ.
  - apply no_run_cons; [| apply IH]. cbn [span_len] in Hn |- *.
    pose proof (sub_space_span_le m Q s HQ (Some c)). destruct (Q c); lia.
Qed.

Lemma run_sub_unchanged (m : matcher) (Q : N → bool) (k : nat) (s : pystr) :
  (∀ prev s, m prev s = if k <=? span_len Q s then Some (span_len Q s) else None) →
  no_run Q k s → re_sub m to_space s = s.
Proof.
  intros Hm Hs.
  assert (Hany : ∀ prev a b, s = a ++ b → m prev b = None).
  { intros prev a b E. rewrite Hm. specialize (Hs a b E).
    by destruct (Nat.leb_spec k (span_len Q b)); [lia |]. }
  apply sub_go_unchanged; [by apply (Hany None []) |].
  intros a c b E. apply (Hany (Some c) (a ++ [c])). by rewrite <- app_assoc.
Qed.

Lemma dash_run_re_form (prev : option N) (s : pystr) :
  dash_run_re prev s = if 2 <=? span_len is_dash s then Some (span_len is_dash s) else None.
Proof. reflexivity. Qed.

Lemma dot_run_re_form (prev : option N) (s : pystr) :
  dot_run_re prev s = if 3 <=? span_len is_dot s then Some (span_len is_dot s) else None.
Proof. reflexivity. Qed.

(** *** Spaces *)

Lemma sub_space_none_of (m : matcher) (bad : N → bool) (s : pystr) :
  bad 32%N = false →
  ∀ skip prev, none_of bad s = true → none_of bad (sub_go m to_space skip prev s) = true.
Proof.
  intros Hb. induction s as [| c s IH]; intros skip prev Hs; [reflexivity |].
  cbn [none_of forallb] in Hs. apply andb_prop in Hs as [Hc Hs].
  assert (Hkeep : none_of bad (c :: sub_go m to_space 0 (Some c) s) = true).
  { cbn [none_of forallb]. rewrite Hc. by apply IH. }
  cbn [sub_go]. destruct skip as [| j]; [| by apply IH].
  destruct (m prev (c :: s)) as [[| j] |]; [exact Hkeep | | exact Hkeep].
  cbn [to_space app none_of forallb]. rewrite Hb. by apply IH.
Qed.

Lemma replace_char_none_of (a : N) (bad : N → bool) (s : pystr) :
  bad 32%N = false → none_of bad s = true → none_of bad (replace_char a 32 s) = true.
Proof.
  intros Hb. induction s as [| c s IH]; [done |].
  cbn [none_of forallb replace_char List.map]. intros H.
  apply andb_prop in H as [Hc Hs]. fold (replace_char a 32 s).
  unfold none_of in IH. rewrite IH by done.
  destruct (c =? a)%N; [by rewrite Hb | by rewrite Hc].
Qed.

Lemma replace_char_removes (a : N) (s : pystr) :
  (32 =? a)%N = false → none_of (fun c => (c =? a)%N) (replace_char a 32 s) = true.
Proof.
  intros Ha. induction s as [| c s IH]; [done |].
  cbn [none_of forallb replace_char List.map]. fold (replace_char a 32 s).
  unfold none_of in IH. rewrite IH.
  destruct (c =? a)%N eqn:E; [by rewrite Ha | by rewrite E].
Qed.

Lemma ws_run_re_cons (prev : option N) (c : N) (s : pystr) :
  ws_run_re prev (c :: s) = if is_space c then Some (S (span_len is_space s)) else None.
Proof. unfold ws_run_re. cbn [span_len]. by destruct (is_space c). Qed.

(** After the collapse every white-space character is a space, and no two
    stand in a row. *)
Lemma ws_sub_only_spaces (s : pystr) (skip : nat) (prev : option N) :
  none_of (fun c => is_space c && negb (c =? 32)%N)
    (sub_go ws_run_re to_space skip prev s) = true.
Proof.
  revert skip prev. induction s as [| c s IH]; intros skip prev; [reflexivity |].
  cbn [sub_go]. destruct skip as [| j]; [| apply IH].
  rewrite ws_run_re_cons. destruct (is_space c) eqn:E.
  - cbn [to_space app none_of forallb]. apply IH.
  - cbn [none_of forallb]. cbn beta. rewrite E. apply IH.
Qed.

Lemma ws_sub_no_run (s : pystr) :
  ∀ skip prev,
  skip = 0 ∨ skip = span_len is_space s →
  no_run is_space 2 (sub_go ws_run_re to_space skip prev s)
  ∧ (skip = span_len is_space s →
     span_len is_space (sub_go ws_run_re to_space skip prev s) = 0).
Proof.
  induction s as [| c s IH]; intros skip prev Hskip.
  { split; [apply no_run_nil; lia | reflexivity]. }
  cbn [sub_go]. destruct skip as [| j].
  - rewrite ws_run_re_cons. destruct (is_space c) eqn:E.
    + destruct (IH (span_len is_space s) (Some c)) as [Hrun Hzero]; [by right |].
      cbn [to_space app].
      split; [| intros H0; cbn [span_len] in H0; rewrite E in H0; discriminate].
      apply no_run_cons; [| exact Hrun]. cbn [span_len].
      rewrite (Hzero eq_refl). cbn. lia.
    + destruct (IH 0 (Some c)) as [Hrun _]; [by left |].
      split; [| intros _; cbn [span_len]; by rewrite E].
      apply no_run_cons; [| exact Hrun]. cbn [span_len]. rewrite E. lia.
  - destruct Hskip as [Hskip | Hskip]; [discriminate |].
    cbn [span_len] in Hskip. destruct (is_space c); [| discriminate].
    injection Hskip as ->. destruct (IH (span_len is_space s) (Some c)) as [Hrun Hzero];
      [by right |].
    split; [exact Hrun | intros _; by apply Hzero].
Qed.

Lemma ws_sub_unchanged (s : pystr) :
  none_of (fun c => is_space c && negb (c =? 32)%N) s = true →
  no_run is_space 2 s →
  ∀ prev, sub_go ws_run_re to_space 0 prev s = s.
Proof.
  induction s as [| c s IH]; intros Hsp Hrun prev; [reflexivity |].
  cbn [none_of forallb] in Hsp. apply andb_prop in Hsp as [Hc Hsp].
  pose proof (Hrun [] (c :: s) eq_refl) as Hc2.
  cbn [sub_go]. rewrite ws_run_re_cons. cbn [span_len] in Hc2.
  destruct (is_space c) eqn:E.
  - assert (Hs0 : span_len is_space s = 0) by lia. rewrite Hs0.
    cbn [to_space app take]. cbn [andb negb] in Hc.
    apply negb_true_iff, negb_false_iff, N.eqb_eq in Hc. subst c.
    f_equal. apply IH; [done | by apply (no_run_tail _ _ 32%N)].
  - f_equal. apply IH; [done | by apply (no_run_tail _ _ c)].
Qed.

(** *** Headings *)



(** *** What every cleaned text is like *)







(** * Further properties *)

(** ** The two page URLs *)







(** ** How many windows are scored *)

(** A list whose [k]-th element exists exactly for [k < n] has [n] elements. *)
Lemma length_from_lookup {A} (l : list A) (n : nat) :
  (∀ k, is_Some (l !! k) ↔ k < n) → length l = n.
Proof.
  intros H.
  destruct (Nat.lt_trichotomy (length l) n) as [Hlt | [-> | Hgt]]; [| done |].
  - apply H, lookup_lt_is_Some in Hlt. lia.
  - assert (Hn : is_Some (l !! n)) by (by apply lookup_lt_is_Some).
    apply H in Hn. lia.
Qed.

Lemma fragment_chunks_kept (doc_fragment : pyobj) (chunk_size k : nat) :
  let n := length (split (clean_text_for_comparison doc_fragment)) in
  is_Some (fragment_chunks doc_fragment chunk_size !! k)
  ↔ 10 ≤ chunk_size ∧ k * chunk_step chunk_size + 10 ≤ n.
Proof.
  intros n. unfold fragment_chunks. rewrite make_chunks_lookup. cbv zeta.
  rewrite window_length, split_lower, length_map. fold n.
  destruct (Nat.leb_spec 10 (Nat.min chunk_size (n - k * chunk_step chunk_size))) as [H | H].
  - split; [intros _; lia | intros _; eauto].
  - split; [intros [x Hx]; discriminate | lia].
Qed.

(** X2: the number of chunks [compare_texts] scores.  With [n] the number of
    words of the cleaned fragment, there is none when [chunk_size] or [n] is
    below ten, and otherwise there are [(n - 10) / stride + 1] of them,
    [stride] being [max 1 (chunk_size * 4 / 5)]. *)
Theorem chunk_count (doc_fragment : pyobj) (chunk_size : nat) :
  let n := length (split (clean_text_for_comparison doc_fragment)) in
  let stride := Nat.max 1 (chunk_size * 4 / 5) in
  length (fragment_chunks doc_fragment chunk_size)
  = if (10 <=? chunk_size) && (10 <=? n) then (n - 10) / stride + 1 else 0.
Proof.
  intros n stride. apply length_from_lookup. intros k.
  rewrite fragment_chunks_kept. fold n. change (chunk_step chunk_size) with stride.
  assert (Hs : 1 ≤ stride) by apply chunk_step_pos.
  destruct (Nat.leb_spec 10 chunk_size) as [Hc | Hc]; cbn [andb]; [| lia].
  destruct (Nat.leb_spec 10 n) as [Hn | Hn]; [| lia].
  pose proof (Nat.div_mod_eq (n - 10) stride) as Hd.
  pose proof (Nat.mod_upper_bound (n - 10) stride ltac:(lia)) as Hm.
  split; [intros [_ H] | intros H; split; [done |]]; nia.
Qed.

(** X3: when the windows overlap by nine words or more and the fragment has
    at least ten words, every word of the fragment is in a window that is
    scored: the short windows that are dropped at the end leave no word
    unread. *)
Theorem every_word_in_a_scored_window (doc_fragment : pyobj) (chunk_size : nat) :
  let words := split (str_lower (clean_text_for_comparison doc_fragment)) in
  let stride := Nat.max 1 (chunk_size * 4 / 5) in
  stride + 9 ≤ chunk_size →
  10 ≤ length words →
  ∀ j, j < length words →
    ∃ i c, fragment_chunks doc_fragment chunk_size !! i = Some c
           ∧ normalized c = join (take chunk_size (drop (i * stride) words))
           ∧ i * stride ≤ j < i * stride + chunk_size.
Proof.
  intros words stride Hov Hn j Hj.
  assert (Hs : 1 ≤ stride) by apply chunk_step_pos.
  set (n := length words) in *.
  assert (En : length (split (clean_text_for_comparison doc_fragment)) = n).
  { unfold n, words. by rewrite split_lower, length_map. }
  pose proof (Nat.div_mod_eq (n - 10) stride) as Hd.
  pose proof (Nat.mod_upper_bound (n - 10) stride ltac:(lia)) as Hm.
  pose proof (Nat.div_mod_eq j stride) as Hdj.
  pose proof (Nat.mod_upper_bound j stride ltac:(lia)) as Hmj.
  set (i := Nat.min (j / stride) ((n - 10) / stride)).
  assert (Hi : i * stride + 10 ≤ n) by (unfold i; nia).
  assert (Hkept : is_Some (fragment_chunks doc_fragment chunk_size !! i)).
  { apply fragment_chunks_kept. rewrite En. change (chunk_step chunk_size) with stride. lia. }
  destruct Hkept as [c Hc]. exists i, c. split; [exact Hc |]. split.
  - unfold fragment_chunks in Hc. rewrite make_chunks_lookup in Hc. cbv zeta in Hc.
    destruct (10 <=? _) in Hc; [| discriminate]. by injection Hc as <-.
  - unfold i. destruct (Nat.min_spec (j / stride) ((n - 10) / stride)) as [[Hlt ->] | [Hge ->]]; nia.
Qed.

Lemma every_word_in_a_scored_window_thirteen :
  let words := split (str_lower (clean_text_for_comparison thirteen_words)) in
  length words = 13
  ∧ ∀ j, j < 13 →
    ∃ i c, fragment_chunks thirteen_words 50 !! i = Some c
           ∧ normalized c = join (take 50 (drop (i * 40) words))
           ∧ i * 40 ≤ j < i * 40 + 50.
Proof.
  split; [vm_compute; reflexivity |].
  apply (every_word_in_a_scored_window thirteen_words 50); vm_compute; lia.
Defined.

(** ** The missing fragments and the minimum *)

Section MissingProperties.
Variable token_set_ratio : pystr → pystr → Q.

Lemma missing_of_nil (page : pystr) (threshold : Q) (chunks : list chunk) :
  missing_of token_set_ratio page threshold chunks = []
  ↔ Forall (fun c => (threshold <= chunk_score token_set_ratio page c)%Q) chunks.
Proof.
  unfold missing_of. induction chunks as [| c chunks IH]; cbn [flat_map].
  - split; [constructor | done].
  - rewrite Forall_cons, <- IH. cbv zeta.
    destruct (Qle_bool threshold (chunk_score token_set_ratio page c)) eqn:E; cbn [negb app].
    + apply Qle_bool_iff in E. tauto.
    + split; [discriminate |]. intros [H _]. apply Qle_bool_iff in H. congruence.
Qed.

(** X4: [compare_texts] reports no missing fragment exactly when the minimum
    it returns reaches the threshold, or when it returns the zero result. *)
Theorem no_missing_iff_min_reaches_threshold (doc_fragment page_text : pyobj) (threshold : Q)
    (chunk_size : nat) :
  let result := compare_texts token_set_ratio doc_fragment page_text threshold chunk_size in
  result.2 = [] ↔ (threshold <= result.1.1)%Q ∨ result = zero_result.
Proof.
  intros result.
  assert (Hzero : result = zero_result → result.2 = [] ↔ (threshold <= result.1.1)%Q ∨ result = zero_result).
  { intros Hz. split; [by right | intros _; by rewrite Hz]. }
  destruct (truthy page_text) eqn:Hp;
    [destruct (fragment_chunks doc_fragment chunk_size) as [| c0 chunks'] eqn:Hc |].
  - apply Hzero, compare_texts_zero. tauto.
  - assert (Hne : fragment_chunks doc_fragment chunk_size ≠ []) by (rewrite Hc; discriminate).
    clear Hzero. unfold result.
    rewrite (compare_texts_scored token_set_ratio _ _ threshold _ Hp Hne).
    cbv zeta. cbn [fst snd]. rewrite Hc. cbn [List.map].
    set (page := str_lower (clean_text_for_comparison page_text)).
    set (scores := List.map (chunk_score token_set_ratio page) chunks').
    destruct (py_min_spec (chunk_score token_set_ratio page c0) scores) as [Hin Hall].
    split.
    + intros Hth. left. apply missing_of_nil in Hth.
      apply in_inv in Hin as [<- | Hin].
      * by apply Forall_cons in Hth as [? _].
      * apply Forall_cons in Hth as [_ Hth]. rewrite Forall_forall in Hth.
        apply in_map_iff in Hin as (c & <- & Hin). apply Hth. by apply list_elem_of_In.
    + intros [Hth | Hz]; [| by injection Hz].
      apply missing_of_nil.
      change (chunk_score token_set_ratio page c0 :: scores)
        with (List.map (chunk_score token_set_ratio page) (c0 :: chunks')) in Hall.
      rewrite Forall_map in Hall. eapply Forall_impl; [exact Hall |].
      intros c Hle. cbn beta in Hle. eapply Qle_trans; [exact Hth | exact Hle].
  - apply Hzero, compare_texts_zero. tauto.
Qed.
End MissingProperties.

(** ** Lower case twice *)

Lemma lower_fixed (r : N) : lower_case_letter r → lower r = r.
Proof.
  intros (H1 & H2 & H3 & H4 & He & Ho). unfold lower.
  repeat match goal with
  | |- context [if ?b then _ else _] =>
      destruct b eqn:?; [exfalso; bool_to_prop;
                         first [lia | rewrite He in * by lia; discriminate
                               | rewrite Ho in * by lia; discriminate] |]
  end.
  reflexivity.
Qed.

Lemma lower_image (c : N) : lower c = c ∨ lower_case_letter (lower c).
Proof.
  unfold lower.
  repeat match goal with
  | |- context [if ?b then _ else _] =>
      destruct b eqn:?;
      [right; bool_to_prop; unfold lower_case_letter; repeat split; try lia;
       rewrite ?N.add_1_r, ?N.even_succ, ?N.odd_succ; intros;
       try match goal with
           | H : N.even ?c = true |- N.odd ?c = false => by rewrite <- N.negb_even, H
           | H : N.odd ?c = true |- N.even ?c = false => by rewrite <- N.negb_odd, H
           | H : N.even ?c = true |- _ ≠ _ =>
               let E := fresh in
               intros E; assert (c = 1215%N) by lia; subst c; discriminate H
           end;
       try lia |]
  end.
  by left.
Qed.

Lemma lower_lower (c : N) : lower (lower c) = lower c.
Proof.
  destruct (lower_image c) as [H | H]; [by rewrite !H | by apply lower_fixed].
Qed.

Lemma str_lower_lower (s : pystr) : str_lower (str_lower s) = str_lower s.
Proof.
  unfold str_lower. rewrite List.map_map. apply List.map_ext. intros c. apply lower_lower.
Qed.

Lemma ci_prefix_lower (p s : pystr) : ci_prefix p (str_lower s) = ci_prefix p s.
Proof.
  revert s. induction p as [| a p IH]; intros [| c s]; cbn [ci_prefix str_lower List.map];
    try reflexivity.
  rewrite lower_lower. f_equal. apply IH.
Qed.

Lemma contains_ci_lower (p s : pystr) : contains_ci p (str_lower s) = contains_ci p s.
Proof.
  induction s as [| c s IH].
  - reflexivity.
  - change (str_lower (c :: s)) with (lower c :: str_lower s). cbn [contains_ci].
    rewrite IH. f_equal. apply (ci_prefix_lower p (c :: s)).
Qed.

(** Lower-casing neither makes nor unmakes a no-break space or a space. *)
Lemma lower_space_chars (c : N) :
  (lower c =? 160)%N = (c =? 160)%N ∧ lower 32 = 32%N.
Proof.
  split; [| reflexivity].
  destruct (lower_cases c) as [-> | [Hc Hl]]; [reflexivity |].
  destruct (N.eqb_spec (lower c) 160), (N.eqb_spec c 160); try reflexivity; lia.
Qed.

Lemma replace_nbsp_lower (s : pystr) :
  replace_char 160 32 (str_lower s) = str_lower (replace_char 160 32 s).
Proof.
  unfold replace_char, str_lower. rewrite !List.map_map. apply List.map_ext. intros c.
  destruct (lower_space_chars c) as [-> _]. by destruct (c =? 160)%N.
Qed.


(** ** The editors of a page *)



(** X6: the letter case of the page text and the kind of its spaces do not
    change what [check_editors_on_page] reports. *)
Theorem check_editors_ignores_case (page_text : pystr) :
  check_editors_on_page (PyStr (str_lower page_text)) = check_editors_on_page (PyStr page_text)
  ∧ check_editors_on_page (PyStr (replace_char 160 32 page_text))
    = check_editors_on_page (PyStr page_text).
Proof.
  unfold check_editors_on_page. destruct page_text as [| c page_text]; [done |].
  change (str_lower (c :: page_text)) with (lower c :: str_lower page_text).
  change (replace_char 160 32 (c :: page_text))
    with ((if (c =? 160)%N then 32%N else c) :: replace_char 160 32 page_text).
  cbn [truthy negb]. split.
  - change (lower c :: str_lower page_text) with (str_lower (c :: page_text)).
    rewrite replace_nbsp_lower.
    assert (E : List.filter (fun editor =>
                   contains_ci editor (str_lower (replace_char 160 32 (c :: page_text))))
                  editors
                = List.filter (fun editor =>
                   contains_ci editor (replace_char 160 32 (c :: page_text))) editors).
    { apply List.filter_ext. intros e. apply contains_ci_lower. }
    by rewrite E.
  - change ((if (c =? 160)%N then 32%N else c) :: replace_char 160 32 page_text)
      with (replace_char 160 32 (c :: page_text)).
    assert (E : replace_char 160 32 (replace_char 160 32 (c :: page_text))
                = replace_char 160 32 (c :: page_text)).
    { apply replace_char_unchanged. by apply replace_char_removes. }
    by rewrite E.
Qed.


(** ** Where the fragments end *)















(** ** What the extractors return is tidy *)

Lemma none_of_take (bad : N → bool) (n : nat) (s : pystr) :
  none_of bad s = true → none_of bad (take n s) = true.
Proof.
  intros H. rewrite <- (take_drop n s), none_of_app in H. by apply andb_prop in H as [H _].
Qed.

Lemma no_run_take (Q : N → bool) (k n : nat) (s : pystr) :
  no_run Q k s → no_run Q k (take n s).
Proof. intros H. apply (no_run_prefix Q k (take n s) (drop n s)). by rewrite take_drop. Qed.

Lemma no_run_drop (Q : N → bool) (k n : nat) (s : pystr) :
  no_run Q k s → no_run Q k (drop n s).
Proof. intros H. apply (no_run_suffix Q k (take n s) (drop n s)). by rewrite take_drop. Qed.

Lemma normalize_spaces_facts (text : pystr) :
  none_of (fun c => is_space c && negb (c =? 32)%N) (normalize_spaces text) = true
  ∧ no_run is_space 2 (normalize_spaces text).
Proof.
  unfold normalize_spaces, re_sub. split; [apply ws_sub_only_spaces |].
  apply (ws_sub_no_run _ 0 None). by left.
Qed.

Lemma strip_single_spaced (s : pystr) :
  none_of (fun c => is_space c && negb (c =? 32)%N) s = true → no_run is_space 2 s →
  single_spaced (strip s).
Proof.
  intros H1 H2. split; [by apply strip_none_of |]. split; [by apply strip_no_run |].
  apply strip_strip.
Qed.

Lemma single_spaced_nil : single_spaced [].
Proof. split; [done |]. split; [apply no_run_nil; lia | done]. Qed.

Lemma emphasis_run_re_form (prev : option N) (s : pystr) :
  emphasis_run_re prev s
  = if 1 <=? span_len is_emphasis s then Some (span_len is_emphasis s) else None.
Proof. unfold emphasis_run_re. by destruct (span_len is_emphasis s). Qed.

Lemma no_run_one (Q : N → bool) (s : pystr) : no_run Q 1 s → none_of Q s = true.
Proof.
  induction s as [| c s IH]; intros H; [done |].
  cbn [none_of forallb]. pose proof (H [] (c :: s) eq_refl) as Hc. cbn [span_len] in Hc.
  destruct (Q c); [lia |]. cbn [negb andb]. apply IH. by apply (no_run_tail _ _ c).
Qed.

(** X9: the fragment either extractor returns has single spaces for all its
    white space and none at its ends; the translated fragment has no star,
    underscore or hash sign. *)
Theorem fragments_are_tidy (text : pyobj) :
  single_spaced (extract_annotation_fragment text)
  ∧ single_spaced (extract_ukrainian_annotation_fragment text)
  ∧ none_of is_emphasis (extract_ukrainian_annotation_fragment text) = true.
Proof.
  unfold extract_annotation_fragment, extract_ukrainian_annotation_fragment.
  destruct (negb (truthy text) || negb (isinstance_str text)).
  { split; [apply single_spaced_nil |]. split; [apply single_spaced_nil | done]. }
  set (t := normalize_spaces (str_of text)).
  destruct (normalize_spaces_facts (str_of text)) as [Hsp Hrun]. fold t in Hsp, Hrun.
  split; [| split].
  - destruct (find_start_match t) as [start_match |]; [| by apply strip_single_spaced].
    cbv zeta.
    destruct (match re_search end_re_primary t (snd start_match) with
              | Some e => Some e
              | None => re_search end_re_secondary t (snd start_match)
              end) as [e |]; apply strip_single_spaced.
    + by apply none_of_take, none_of_drop.
    + by apply no_run_take, no_run_drop.
    + by apply none_of_drop.
    + by apply no_run_drop.
  - destruct (re_search ua_start_re t 0) as [start_match |]; [| apply single_spaced_nil].
    cbv zeta. apply strip_single_spaced; [apply ws_sub_only_spaces |].
    apply (ws_sub_no_run _ 0 None). by left.
  - destruct (re_search ua_start_re t 0) as [start_match |]; [| done].
    cbv zeta. apply strip_none_of, sub_space_none_of; [done |].
    apply no_run_one.
    apply (run_sub_no_run emphasis_run_re is_emphasis 1);
      [apply emphasis_run_re_form | done | lia].
Qed.


(** ** The cleaner on plain text *)

(** ** A substitution whose pattern reads no context *)

Lemma sub_go_prev (m : matcher) (repl : pystr → pystr) :
  (∀ prev prev' s, m prev s = m prev' s) →
  ∀ s skip prev prev', sub_go m repl skip prev s = sub_go m repl skip prev' s.
Proof.
  intros Hcf. destruct s as [| c s]; intros skip prev prev'; [reflexivity |].
  cbn [sub_go]. destruct skip; [| reflexivity]. by rewrite (Hcf prev prev').
Qed.

Lemma sub_go_skip (m : matcher) (repl : pystr → pystr) :
  (∀ prev prev' s, m prev s = m prev' s) →
  ∀ s skip prev, sub_go m repl skip prev s = sub_go m repl 0 None (drop skip s).
Proof.
  intros Hcf. induction s as [| c s IH]; intros skip prev.
  - by destruct skip.
  - destruct skip as [| k]; [apply (sub_go_prev m repl Hcf) |]. cbn [sub_go drop]. apply IH.
Qed.

Lemma drop_span_lstrip (s : pystr) : drop (span_len is_space s) s = lstrip s.
Proof.
  induction s as [| c s IH]; [reflexivity |]. cbn [span_len lstrip].
  destruct (is_space c); [exact IH | reflexivity].
Qed.

(** What the collapse of white space does at the head of a text *)
Lemma ws_collapse_cons (c : N) (s : pystr) :
  re_sub ws_run_re to_space (c :: s)
  = if is_space c then 32%N :: re_sub ws_run_re to_space (lstrip s)
    else c :: re_sub ws_run_re to_space s.
Proof.
  unfold re_sub. cbn [sub_go]. rewrite ws_run_re_cons. destruct (is_space c).
  - cbn [to_space app]. f_equal.
    rewrite (sub_go_skip ws_run_re to_space (fun _ _ _ => eq_refl)).
    by rewrite drop_span_lstrip.
  - f_equal. apply (sub_go_prev ws_run_re to_space (fun _ _ _ => eq_refl)).
Qed.

Lemma lstrip_length (s : pystr) : length (lstrip s) ≤ length s.
Proof.
  destruct (lstrip_suffix s) as [a Ha]. apply (f_equal length) in Ha.
  rewrite length_app in Ha. lia.
Qed.

(** ** Line ends *)

(** One step of it *)
Lemma unify_newlines_cons (c : N) (s : pystr) :
  ∃ c' s', unify_newlines (c :: s) = c' :: unify_newlines s'
    ∧ (c' = c ∧ s' = s ∨ c = 13%N ∧ c' = 10%N ∧ (s' = s ∨ s = 10%N :: s')).
Proof.
  unfold unify_newlines. cbn [replace_crlf]. destruct (N.eqb_spec c 13) as [-> | Hc].
  - destruct s as [| d s'].
    + exists 10%N, []. split; [reflexivity |]. right. tauto.
    + destruct (N.eqb_spec d 10) as [-> | Hd].
      * exists 10%N, s'. split; [reflexivity |]. right. tauto.
      * exists 10%N, (d :: s'). split; [reflexivity |]. right. tauto.
  - exists c, s. split; [| left; tauto].
    unfold replace_char. cbn [List.map]. apply N.eqb_neq in Hc. by rewrite Hc.
Qed.

Lemma unify_newlines_lstrip (s : pystr) :
  lstrip (unify_newlines s) = unify_newlines (lstrip s).
Proof.
  remember (length s) as n eqn:Hn. revert s Hn.
  induction n as [n IH] using lt_wf_ind. intros [| c s] Hn; [reflexivity |].
  cbn [length] in Hn.
  destruct (unify_newlines_cons c s) as (c' & s' & E & [[-> ->] | (-> & -> & Hs)]).
  - rewrite E. cbn [lstrip]. destruct (is_space c) eqn:Hsp.
    + apply (IH (length s)); [lia | reflexivity].
    + by rewrite E.
  - rewrite E. cbn [lstrip]. change (is_space 10) with true. change (is_space 13) with true.
    cbn iota. destruct Hs as [-> | ->].
    + apply (IH (length s)); [lia | reflexivity].
    + cbn [lstrip]. change (is_space 10) with true. cbn iota.
      apply (IH (length s')); [cbn [length] in Hn; lia | reflexivity].
Qed.

(** The kind of the line ends makes no difference to the collapse of white
    space. *)
Lemma ws_collapse_newlines (s : pystr) :
  re_sub ws_run_re to_space (unify_newlines s) = re_sub ws_run_re to_space s.
Proof.
  remember (length s) as n eqn:Hn. revert s Hn.
  induction n as [n IH] using lt_wf_ind. intros [| c s] Hn; [reflexivity |].
  cbn [length] in Hn.
  destruct (unify_newlines_cons c s) as (c' & s' & E & [[-> ->] | (-> & -> & Hs)]).
  - rewrite E, !ws_collapse_cons. destruct (is_space c).
    + f_equal. rewrite unify_newlines_lstrip.
      pose proof (lstrip_length s). apply (IH (length (lstrip s))); [lia | reflexivity].
    + f_equal. apply (IH (length s)); [lia | reflexivity].
  - rewrite E, !ws_collapse_cons. change (is_space 10) with true.
    change (is_space 13) with true. cbn iota. f_equal. rewrite unify_newlines_lstrip.
    assert (El : lstrip s' = lstrip s ∧ length s' ≤ length s).
    { destruct Hs as [-> | ->]; [done |]. split; [reflexivity | cbn [length]; lia]. }
    destruct El as [El Hlen]. rewrite <- El. pose proof (lstrip_length s').
    apply (IH (length (lstrip s'))); [lia | reflexivity].
Qed.

Lemma unify_newlines_none_of (bad : N → bool) (s : pystr) :
  bad 10%N = false → none_of bad s = true → none_of bad (unify_newlines s) = true.
Proof.
  intros H10. remember (length s) as n eqn:Hn. revert s Hn.
  induction n as [n IH] using lt_wf_ind. intros [| c s] Hn Hs; [reflexivity |].
  cbn [length] in Hn. cbn [none_of forallb] in Hs. apply andb_prop in Hs as [Hc Hs].
  destruct (unify_newlines_cons c s) as (c' & s' & E & [[-> ->] | (-> & -> & Hs')]).
  - rewrite E. cbn [none_of forallb]. rewrite Hc. apply (IH (length s)); [lia | done | done].
  - rewrite E. cbn [none_of forallb]. rewrite H10. cbn [negb andb].
    destruct Hs' as [-> | ->]; [apply (IH (length s)); [lia | done | done] |].
    cbn [forallb] in Hs. apply andb_prop in Hs as [_ Hs].
    apply (IH (length s')); [cbn [length] in Hn; lia | done | done].
Qed.

Lemma unify_newlines_span_le (Q : N → bool) (s : pystr) :
  Q 10%N = false → span_len Q (unify_newlines s) ≤ span_len Q s.
Proof.
  intros H10. remember (length s) as n eqn:Hn. revert s Hn.
  induction n as [n IH] using lt_wf_ind. intros [| c s] Hn; [reflexivity |].
  cbn [length] in Hn.
  destruct (unify_newlines_cons c s) as (c' & s' & E & [[-> ->] | (-> & -> & Hs')]).
  - rewrite E. cbn [span_len]. destruct (Q c); [| lia].
    apply le_n_S, (IH (length s)); [lia | done].
  - rewrite E. cbn [span_len]. rewrite H10. lia.
Qed.

Lemma unify_newlines_no_run (Q : N → bool) (k : nat) (s : pystr) :
  Q 10%N = false → no_run Q k s → no_run Q k (unify_newlines s).
Proof.
  intros H10. remember (length s) as n eqn:Hn. revert s Hn.
  induction n as [n IH] using lt_wf_ind. intros [| c s] Hn Hs.
  { exact Hs. }
  cbn [length] in Hn.
  pose proof (unify_newlines_span_le Q (c :: s) H10) as Hle.
  pose proof (Hs [] (c :: s) eq_refl) as Hk.
  destruct (unify_newlines_cons c s) as (c' & s' & E & [[-> ->] | (-> & -> & Hs')]).
  - rewrite E in *. apply no_run_cons; [lia |].
    apply (IH (length s)); [lia | done | by apply (no_run_tail _ _ c)].
  - rewrite E in *. apply no_run_cons; [lia |].
    destruct Hs' as [-> | ->].
    + apply (IH (length s)); [lia | done | by apply (no_run_tail _ _ 13%N)].
    + apply (IH (length s')); [cbn [length] in Hn; lia | done |].
      apply (no_run_tail _ _ 10%N), (no_run_tail _ _ 13%N), Hs.
Qed.

(** ** The cleaner on a text with no markup *)

Lemma heading_sub_no_hash (s : pystr) :
  none_of (fun c => (c =? 35)%N) s = true → re_sub heading_re to_space s = s.
Proof.
  intros Hs.
  assert (Hno : ∀ prev b, none_of (fun c => (c =? 35)%N) b = true → heading_re prev b = None).
  { intros prev b Hb. unfold heading_re. destruct (at_line_start prev); [| reflexivity].
    destruct (span_len is_space b <=? 3); [| reflexivity].
    pose proof (none_of_drop _ (span_len is_space b) b Hb) as Hd.
    destruct (drop (span_len is_space b) b) as [| x r]; [reflexivity |].
    cbn [none_of forallb] in Hd. apply andb_prop in Hd as [Hx _].
    apply negb_true_iff in Hx. cbn [span_len]. by rewrite Hx. }
  apply sub_go_unchanged; [by apply Hno |].
  intros a c b E. apply Hno. rewrite E in Hs. apply none_of_suffix in Hs.
  cbn [none_of forallb] in Hs. by apply andb_prop in Hs as [_ Hs].
Qed.

(** X10: on a text with no angle bracket, star, underscore, hash sign or
    square bracket, no two dashes in a row and no three dots in a row, the
    cleaner does what the extractors do to the white space, strips the
    result, and changes nothing else. *)
Theorem clean_plain_text (text : pystr) :
  none_of is_markup text = true →
  no_run is_dash 2 text →
  no_run is_dot 3 text →
  clean_text_for_comparison (PyStr text) = strip (normalize_spaces text).
Proof.
  intros Hm Hdash Hdot. destruct text as [| c0 text0]; [reflexivity |].
  set (text := c0 :: text0) in *.
  unfold clean_text_for_comparison. cbn [truthy isinstance_str negb orb str_of].
  fold text. fold (unify_newlines (replace_char 160 32 text)).
  set (t := unify_newlines (replace_char 160 32 text)).
  assert (Ht : none_of is_markup t = true).
  { apply unify_newlines_none_of; [done |]. by apply replace_char_none_of. }
  assert (Htd : no_run is_dash 2 t).
  { apply unify_newlines_no_run; [done |]. by apply replace_char_no_run. }
  assert (Hto : no_run is_dot 3 t).
  { apply unify_newlines_no_run; [done |]. by apply replace_char_no_run. }
  assert (Hone : ∀ k, is_markup k = true → none_of (fun c => (c =? k)%N) t = true).
  { intros k Hk. refine (none_of_weaken _ _ _ _ Ht).
    intros c Hc. apply N.eqb_eq in Hc. by subst c. }
  rewrite (sub_no_trigger tag_re to_space (fun c => (c =? 60)%N) t
             tag_re_trigger (fun _ => eq_refl) (Hone 60%N eq_refl)).
  rewrite (sub_no_trigger strong_re strong_group2 (fun c => (c =? 42)%N || (c =? 95)%N)
             t strong_re_trigger (fun _ => eq_refl)).
  2: { refine (none_of_weaken _ _ _ _ Ht). intros c Hc. unfold is_markup.
       apply orb_prop in Hc as [-> | ->]; by rewrite ?orb_true_r. }
  rewrite (sub_no_trigger lone_star_re to_space (fun c => (c =? 42)%N) t
             lone_star_re_trigger (fun _ => eq_refl) (Hone 42%N eq_refl)).
  rewrite (sub_no_trigger underscore_re underscore_group1 (fun c => (c =? 95)%N) t
             underscore_re_trigger (fun _ => eq_refl) (Hone 95%N eq_refl)).
  rewrite (heading_sub_no_hash t (Hone 35%N eq_refl)).
  rewrite (sub_no_trigger footnote_re to_space (fun c => (c =? 91)%N) t
             footnote_re_trigger (fun _ => eq_refl) (Hone 91%N eq_refl)).
  rewrite (run_sub_unchanged dash_run_re is_dash 2 t dash_run_re_form Htd).
  rewrite (run_sub_unchanged dot_run_re is_dot 3 t dot_run_re_form Hto).
  rewrite (replace_char_unchanged 42 32 t (Hone 42%N eq_refl)).
  rewrite (replace_char_unchanged 95 32 t (Hone 95%N eq_refl)).
  unfold t. by rewrite ws_collapse_newlines.
Qed.

Lemma no_runb_spec (Q : N → bool) (k : nat) (s : pystr) :
  no_runb Q k s = true → no_run Q k s.
Proof.
  induction s as [| c s IH]; cbn [no_runb]; intros H; apply andb_prop in H as [Hk Hs];
    apply Nat.ltb_lt in Hk.
  - apply no_run_nil. cbn [span_len] in Hk. lia.
  - apply no_run_cons; [done | by apply IH].
Qed.

Lemma clean_plain_text_sample :
  let text := u "Перша  строка." ++ [13%N; 10%N] ++ u " Друга - строка..  " in
  none_of is_markup text = true
  ∧ no_run is_dash 2 text
  ∧ no_run is_dot 3 text
  ∧ clean_text_for_comparison (PyStr text) = u "Перша строка. Друга - строка..".
Proof.
  intros text.
  assert (Hm : none_of is_markup text = true) by (vm_compute; reflexivity).
  assert (Hd : no_run is_dash 2 text) by (apply no_runb_spec; vm_compute; reflexivity).
  assert (Ho : no_run is_dot 3 text) by (apply no_runb_spec; vm_compute; reflexivity).
  split; [exact Hm |]. split; [exact Hd |]. split; [exact Ho |].
  rewrite (clean_plain_text text Hm Hd Ho). vm_compute. reflexivity.
Defined.

(** ** The document id of a link *)

Section DocIdProperties.
Variable unicode_alnum : N → bool.

#[local] Abbreviation id_char := (is_id_char unicode_alnum).
#[local] Abbreviation alternatives := (doc_id_alternatives).

Lemma doc_id_group_some (s : pystr) (k : nat) :
  doc_id_group unicode_alnum s = Some k ↔ k = span_len id_char s ∧ 0 < k.
Proof.
  unfold doc_id_group. destruct (span_len id_char s); split.
  - discriminate.
  - intros [-> H]. lia.
  - intros [= <-]. split; [done | lia].
  - by intros [-> _].
Qed.

Lemma doc_id_group_none (s : pystr) :
  doc_id_group unicode_alnum s = None ↔ span_len id_char s = 0.
Proof. unfold doc_id_group. destruct (span_len id_char s); split; done. Qed.

(** The alternatives in terms of the prefixes *)
Lemma doc_id_alternative_prefix (s : pystr) (pre : pystr) :
  pre ∈ doc_id_prefixes → take (length pre) s = pre →
  ∃ alt, alt ∈ alternatives ∧ alt s = Some (length pre).
Proof.
  intros Hpre Htake. apply startswith_spec in Htake.
  unfold doc_id_prefixes in Hpre.
  repeat (apply elem_of_cons in Hpre as [-> | Hpre]); try (by apply elem_of_nil in Hpre).
  - eexists. split; [unfold doc_id_alternatives; left |].
    cbn beta. by rewrite Htake.
  - eexists. split; [unfold doc_id_alternatives; right; left |].
    cbn beta. by rewrite Htake.
  - eexists. split; [unfold doc_id_alternatives; do 2 right; left |].
    cbn beta. destruct s as [| c r]; [discriminate |].
    change (u "?id=") with (63%N :: u "id=") in Htake. cbn [startswith] in Htake.
    apply andb_prop in Htake as [Hc Hr]. apply N.eqb_eq in Hc. subst c. by rewrite Hr.
  - eexists. split; [unfold doc_id_alternatives; do 2 right; left |].
    cbn beta. destruct s as [| c r]; [discriminate |].
    change (u "&id=") with (38%N :: u "id=") in Htake. cbn [startswith] in Htake.
    apply andb_prop in Htake as [Hc Hr]. apply N.eqb_eq in Hc. subst c. by rewrite Hr.
Qed.

Lemma doc_id_prefix_alternative (s : pystr) (alt : pystr → option nat) (n : nat) :
  alt ∈ alternatives → alt s = Some n →
  ∃ pre, pre ∈ doc_id_prefixes ∧ take (length pre) s = pre ∧ n = length pre.
Proof.
  intros Halt Hn. unfold doc_id_alternatives in Halt.
  repeat (apply elem_of_cons in Halt as [-> | Halt]); try (by apply elem_of_nil in Halt);
    cbn beta in Hn.
  - destruct (startswith (u "/d/") s) eqn:E; [| discriminate]. injection Hn as <-.
    exists (u "/d/"). split; [unfold doc_id_prefixes; left |].
    split; [by apply startswith_spec | reflexivity].
  - destruct (startswith (u "/document/d/") s) eqn:E; [| discriminate]. injection Hn as <-.
    exists (u "/document/d/").
    split; [unfold doc_id_prefixes; right; left |].
    split; [by apply startswith_spec | reflexivity].
  - destruct s as [| c r]; [discriminate |].
    destruct (((c =? 63)%N || (c =? 38)%N) && startswith (u "id=") r) eqn:E; [| discriminate].
    injection Hn as <-. apply andb_prop in E as [Hc Hr].
    apply orb_prop in Hc as [Hc | Hc]; apply N.eqb_eq in Hc; subst c.
    + exists (u "?id=").
      split; [unfold doc_id_prefixes; do 2 right; left |].
      split; [| reflexivity]. apply startswith_spec.
      change (u "?id=") with (63%N :: u "id="). cbn [startswith]. by rewrite Hr.
    + exists (u "&id=").
      split; [unfold doc_id_prefixes; do 3 right; left |].
      split; [| reflexivity]. apply startswith_spec.
      change (u "&id=") with (38%N :: u "id="). cbn [startswith]. by rewrite Hr.
Qed.

(** What the pattern finds at the head of a text *)
Lemma doc_id_try_some (alts : list (pystr → option nat)) (s : pystr) (len g : nat) :
  doc_id_try unicode_alnum alts s = Some (len, g) →
  ∃ alt, alt ∈ alts ∧ alt s = Some g
    ∧ len = g + span_len id_char (drop g s) ∧ 0 < span_len id_char (drop g s).
Proof.
  induction alts as [| alt alts IH]; cbn [doc_id_try]; [discriminate |].
  intros H.
  assert (Hrest : doc_id_try unicode_alnum alts s = Some (len, g) →
                  ∃ alt0, alt0 ∈ alt :: alts ∧ alt0 s = Some g
                    ∧ len = g + span_len id_char (drop g s)
                    ∧ 0 < span_len id_char (drop g s)).
  { intros H'. destruct (IH H') as (a & Ha & Hrest). exists a. split; [by right | done]. }
  destruct (alt s) as [n |] eqn:E; [| by apply Hrest].
  destruct (doc_id_group unicode_alnum (drop n s)) as [k |] eqn:Ek; [| by apply Hrest].
  injection H as <- <-. apply doc_id_group_some in Ek as [-> Hk].
  exists alt. split; [by left | done].
Qed.

Lemma doc_id_try_none (alts : list (pystr → option nat)) (s : pystr) :
  doc_id_try unicode_alnum alts s = None →
  ∀ alt n, alt ∈ alts → alt s = Some n → span_len id_char (drop n s) = 0.
Proof.
  induction alts as [| alt alts IH]; cbn [doc_id_try]; intros H a n Ha Hn.
  { by apply elem_of_nil in Ha. }
  destruct (alt s) as [n' |] eqn:E.
  - destruct (doc_id_group unicode_alnum (drop n' s)) as [k |] eqn:Ek; [discriminate |].
    apply elem_of_cons in Ha as [-> | Ha]; [| by apply (IH H a)].
    rewrite E in Hn. injection Hn as <-. by apply doc_id_group_none.
  - apply elem_of_cons in Ha as [-> | Ha]; [congruence | by apply (IH H a)].
Qed.

Lemma id_at_head (url : pystr) (i : nat) (id : pystr) :
  id_at unicode_alnum url i id
  ↔ ∃ alt n, alt ∈ alternatives ∧ alt (drop i url) = Some n
      ∧ id = take (span_len id_char (drop n (drop i url))) (drop n (drop i url))
      ∧ 0 < span_len id_char (drop n (drop i url)).
Proof.
  unfold id_at. split.
  - intros (pre & Hpre & Htake & -> & Hne).
    destruct (doc_id_alternative_prefix _ _ Hpre Htake) as (alt & Halt & Hn).
    exists alt, (length pre). rewrite drop_drop. split; [done |]. split; [done |].
    split; [done |].
    destruct (span_len id_char (drop (i + length pre) url)); [by rewrite take_0 in Hne | lia].
  - intros (alt & n & Halt & Hn & -> & Hpos).
    destruct (doc_id_prefix_alternative _ _ _ Halt Hn) as (pre & Hpre & Htake & ->).
    exists pre. rewrite drop_drop in *. split; [done |]. split; [done |]. split; [done |].
    intros E. apply (f_equal length) in E. rewrite length_take in E. cbn [length] in E.
    pose proof (span_len_take_forall id_char (drop (i + length pre) url)) as Hall.
    assert (Hlen : span_len id_char (drop (i + length pre) url)
                   ≤ length (drop (i + length pre) url)).
    { clear. generalize (drop (i + length pre) url). intros l.
      induction l as [| c l IH]; cbn [span_len length]; [lia |].
      destruct (id_char c); lia. }
    lia.
Qed.

Lemma doc_id_prefixes_apart :
  forallb (fun p => forallb (fun q =>
      implb ((length p <=? length q) && bool_decide (take (length p) q = p))
            (bool_decide (p = q)))
    doc_id_prefixes) doc_id_prefixes = true.
Proof. vm_compute. reflexivity. Qed.

Lemma doc_id_prefix_unique (p q s : pystr) :
  p ∈ doc_id_prefixes → q ∈ doc_id_prefixes →
  take (length p) s = p → take (length q) s = q → p = q.
Proof.
  assert (Hone : ∀ p q, p ∈ doc_id_prefixes → q ∈ doc_id_prefixes →
                 take (length p) s = p → take (length q) s = q →
                 length p ≤ length q → p = q).
  { clear. intros p q Hp Hq Ep Eq Hle.
    assert (E : take (length p) q = p).
    { rewrite <- Eq, take_take, Nat.min_l by done. exact Ep. }
    pose proof doc_id_prefixes_apart as H. rewrite forallb_forall in H.
    apply list_elem_of_In in Hp, Hq. specialize (H p Hp). rewrite forallb_forall in H.
    specialize (H q Hq). apply Nat.leb_le in Hle. rewrite Hle in H.
    rewrite (bool_decide_eq_true_2 _ E) in H. cbn [andb implb] in H.
    by apply bool_decide_eq_true in H. }
  intros Hp Hq Ep Eq. destruct (Nat.le_ge_cases (length p) (length q)) as [Hle | Hle].
  - by apply Hone.
  - symmetry. by apply Hone.
Qed.

Lemma id_at_unique (url : pystr) (i : nat) (id id' : pystr) :
  id_at unicode_alnum url i id → id_at unicode_alnum url i id' → id = id'.
Proof.
  intros (p & Hp & Ep & -> & _) (q & Hq & Eq & -> & _).
  by rewrite (doc_id_prefix_unique p q (drop i url) Hp Hq Ep Eq).
Qed.

Lemma id_at_in_text (url : pystr) (i : nat) (id : pystr) :
  id_at unicode_alnum url i id → i < length url.
Proof.
  intros (p & Hp & Ep & _). destruct (Nat.lt_ge_cases i (length url)) as [H | H]; [done |].
  rewrite drop_ge, take_nil in Ep by done. subst p. exfalso.
  unfold doc_id_prefixes in Hp.
  repeat (apply elem_of_cons in Hp as [Hp | Hp]); try discriminate. by apply elem_of_nil in Hp.
Qed.

Lemma doc_id_re_positive (prev : option N) (s : pystr) :
  doc_id_re unicode_alnum prev s ≠ Some 0.
Proof.
  unfold doc_id_re. destruct (doc_id_try unicode_alnum alternatives s) as [[len g] |] eqn:E;
    [| discriminate].
  apply doc_id_try_some in E as (_ & _ & _ & -> & Hpos). cbn. intros [= H]. lia.
Qed.

(** What [extract_doc_id] returns on a string *)
Lemma extract_doc_id_leftmost (url : pystr) :
  match extract_doc_id unicode_alnum (PyStr url) with
  | Some id =>
      ∃ i, id_at unicode_alnum url i id ∧ ∀ j id', j < i → ¬ id_at unicode_alnum url j id'
  | None => ∀ i id, ¬ id_at unicode_alnum url i id
  end.
Proof.
  unfold extract_doc_id. destruct url as [| c0 url0].
  { cbn [truthy negb orb]. intros i id H. apply id_at_in_text in H. cbn in H. lia. }
  set (url := c0 :: url0). cbn [truthy isinstance_str negb orb str_of]. fold url.
  unfold re_search. rewrite drop_0.
  pose proof (search_go_spec (doc_id_re unicode_alnum) (fun _ _ _ => eq_refl)
                doc_id_re_positive url 0 (last (take 0 url))) as H.
  destruct (search_go _ _ _ _) as [[a b] |].
  - destruct H as (j & -> & Hm & Hmin). cbn [Nat.add] in *.
    unfold doc_id_re in Hm.
    destruct (doc_id_try unicode_alnum alternatives (drop j url)) as [[len g] |] eqn:E;
      [| discriminate].
    cbn in Hm. injection Hm as Hlen.
    pose proof (doc_id_try_some _ _ _ _ E) as (alt & Halt & Hg & Hl & Hpos).
    exists j. split.
    + apply id_at_head. exists alt, g. split; [done |]. split; [done |]. split; [| done].
      unfold slice. rewrite drop_drop in *. f_equal. lia.
    + intros j' id' Hj' Hid. specialize (Hmin j' Hj'). unfold doc_id_re in Hmin.
      destruct (doc_id_try unicode_alnum alternatives (drop j' url)) eqn:E'; [discriminate |].
      apply id_at_head in Hid as (alt' & n & Halt' & Hn & _ & Hpos').
      pose proof (doc_id_try_none _ _ E' alt' n Halt' Hn). lia.
  - intros i id Hid. pose proof (id_at_in_text _ _ _ Hid) as Hi.
    specialize (H i Hi). unfold doc_id_re in H.
    destruct (doc_id_try unicode_alnum alternatives (drop i url)) eqn:E'; [discriminate |].
    apply id_at_head in Hid as (alt' & n & Halt' & Hn & _ & Hpos').
    pose proof (doc_id_try_none _ _ E' alt' n Halt' Hn). lia.
Qed.

(** X11: the document id [extract_doc_id] takes from a link is the run of
    letters, digits, underscores and hyphens after the leftmost [/d/],
    [/document/d/], [?id=] or [&id=] that has such a run after it; when no
    place of the link has one, or the argument is empty or not a string,
    the function returns [None]. *)
Theorem extract_doc_id_spec (url : pyobj) :
  match extract_doc_id unicode_alnum url with
  | Some id =>
      ∃ s i, url = PyStr s ∧ id_at unicode_alnum s i id
        ∧ (∀ id', id_at unicode_alnum s i id' → id' = id)
        ∧ ∀ j id', j < i → ¬ id_at unicode_alnum s j id'
  | None => ∀ s, url = PyStr s → ∀ i id, ¬ id_at unicode_alnum s i id
  end.
Proof.
  destruct url as [| b | z | s | l];
    try (unfold extract_doc_id; cbn [isinstance_str negb]; rewrite orb_true_r;
         intros; discriminate).
  pose proof (extract_doc_id_leftmost s) as H.
  destruct (extract_doc_id unicode_alnum (PyStr s)) as [id |].
  - destruct H as (i & Hid & Hmin). exists s, i. split; [done |]. split; [done |].
    split; [| done]. intros id' Hid'. by apply (id_at_unique s i).
  - intros s' [= <-]. exact H.
Qed.

(** The first characters of a link to a document of Google Docs *)
Lemma docs_link_head :
  let P := u "https://docs.google.com/document/d/" in
  length P = 35
  ∧ take 12 (drop 23 P) = u "/document/d/"
  ∧ forallb (fun j => forallb (fun pre =>
        negb (bool_decide (take (length pre) (drop j P) = pre))) doc_id_prefixes)
      (seq 0 23) = true.
Proof. vm_compute. done. Qed.

(** X12: from a link [https://docs.google.com/document/d/<id>...] whose id is
    made of letters, digits, underscores and hyphens and is followed by the
    end of the link or by another character, [extract_doc_id] returns the
    id. *)
Theorem extract_doc_id_docs_link (id rest : pystr) :
  id ≠ [] →
  forallb (is_id_char unicode_alnum) id = true →
  match rest with [] => True | c :: _ => is_id_char unicode_alnum c = false end →
  extract_doc_id unicode_alnum (PyStr (u "https://docs.google.com/document/d/" ++ id ++ rest))
  = Some id.
Proof.
  intros Hne Hid Hrest.
  destruct docs_link_head as (Hlen & Hpre & Hbefore). cbv zeta in Hlen, Hpre, Hbefore.
  set (P := u "https://docs.google.com/document/d/") in *.
  set (url := P ++ id ++ rest).
  assert (Hat : id_at unicode_alnum url 23 id).
  { exists (u "/document/d/"). split; [unfold doc_id_prefixes; right; left |].
    change (length (u "/document/d/")) with 12. unfold url.
    split; [| split; [| done]].
    - rewrite drop_app_le by lia. rewrite take_app_le by (rewrite length_drop; lia). exact Hpre.
    - rewrite drop_app_length' by lia.
      rewrite span_len_app_stop by done. by rewrite take_app_length. }
  assert (Hno : ∀ j id', j < 23 → ¬ id_at unicode_alnum url j id').
  { intros j id' Hj (pre & Hp & Ep & _).
    rewrite forallb_forall in Hbefore. specialize (Hbefore j).
    rewrite forallb_forall in Hbefore.
    assert (Hin : In j (seq 0 23)) by (apply in_seq; lia).
    apply list_elem_of_In in Hp as Hp'. specialize (Hbefore Hin pre Hp').
    apply negb_true_iff, bool_decide_eq_false in Hbefore. apply Hbefore.
    assert (Hl : length pre ≤ 12).
    { clear -Hp. unfold doc_id_prefixes in Hp.
      repeat (apply elem_of_cons in Hp as [-> | Hp]); try (by apply elem_of_nil in Hp);
        vm_compute; lia. }
    unfold url in Ep. rewrite drop_app_le in Ep by lia.
    rewrite take_app_le in Ep by (rewrite length_drop; lia). exact Ep. }
  pose proof (extract_doc_id_leftmost url) as H. fold url.
  destruct (extract_doc_id unicode_alnum (PyStr url)) as [id0 |].
  - destruct H as (i & Hi & Hmin). f_equal.
    destruct (Nat.lt_trichotomy i 23) as [Hlt | [-> | Hgt]].
    + by destruct (Hno i id0 Hlt).
    + by apply (id_at_unique url 23).
    + by destruct (Hmin 23 id Hgt).
  - by destruct (H 23 id).
Qed.
End DocIdProperties.

Lemma extract_doc_id_docs_link_sample :
  extract_doc_id (fun _ => false)
    (PyStr (u "https://docs.google.com/document/d/1aB_c-9/edit?usp=sharing"))
  = Some (u "1aB_c-9").
Proof.
  apply (extract_doc_id_docs_link (fun _ => false) (u "1aB_c-9") (u "/edit?usp=sharing"));
    vm_compute; done.
Defined.

(** ** The text of a page and of a document *)

Lemma single_spaced_normalized (t : pystr) : single_spaced t → normalize_spaces t = t.
Proof.
  intros (Hsp & Hrun & _). unfold normalize_spaces.
  rewrite replace_char_unchanged.
  - by apply ws_sub_unchanged.
  - refine (none_of_weaken _ _ _ _ Hsp). intros c Hc. apply N.eqb_eq in Hc. by subst c.
Qed.

Lemma ws_collapse_single_spaced (s : pystr) :
  single_spaced (strip (re_sub ws_run_re to_space s)).
Proof.
  apply strip_single_spaced; [apply ws_sub_only_spaces |].
  apply (ws_sub_no_run _ 0 None). by left.
Qed.

Lemma document_text_single_spaced (document : json) (text : pystr) :
  document_text document = Some text → single_spaced text.
Proof.
  unfold document_text. intros H.
  repeat (apply bind_Some in H as (? & _ & H)).
  injection H as <-. apply ws_collapse_single_spaced.
Qed.

(** X13: the text [get_doc_text] returns has single spaces for all its white
    space and none at its ends, so the first two statements of the
    extractors, which normalize the white space, leave it as it is. *)
Theorem doc_text_is_normalized (unicode_alnum : N → bool)
    (docs_service : option (pystr → option json)) (doc_url : pyobj) :
  let text := get_doc_text unicode_alnum docs_service doc_url in
  single_spaced text ∧ normalize_spaces text = text.
Proof.
  intros text.
  assert (H : single_spaced text); [| split; [done | by apply single_spaced_normalized]].
  unfold text, get_doc_text.
  destruct (negb (truthy doc_url)); [apply single_spaced_nil |].
  destruct (extract_doc_id unicode_alnum doc_url) as [doc_id |]; [| apply single_spaced_nil].
  destruct (negb (nonempty doc_id)); [apply single_spaced_nil |].
  destruct docs_service as [service |]; [| apply single_spaced_nil].
  destruct (service doc_id) as [document |]; [| apply single_spaced_nil].
  destruct (document_text document) as [t |] eqn:E; [| apply single_spaced_nil].
  by apply (document_text_single_spaced document).
Qed.

Lemma none_of_lower_fixed (s : pystr) :
  none_of (fun c => negb (lower c =? c)%N) s = true → str_lower s = s.
Proof.
  induction s as [| c s IH]; [done |]. cbn [none_of forallb]. intros H.
  apply andb_prop in H as [Hc Hs]. apply negb_true_iff, negb_false_iff, N.eqb_eq in Hc.
  unfold str_lower. cbn [List.map]. rewrite Hc. f_equal. by apply IH.
Qed.

Lemma str_lower_none_of (s : pystr) :
  none_of (fun c => negb (lower c =? c)%N) (str_lower s) = true.
Proof.
  induction s as [| c s IH]; [done |]. cbn [str_lower List.map none_of forallb].
  rewrite lower_lower, N.eqb_refl. exact IH.
Qed.

(** X14: the text [get_page_text] returns is in lower case and has single
    spaces for all its white space, none at its ends. *)
Theorem page_text_is_normalized (fetch_soup : pystr → option node) (page_url : pyobj) :
  let text := get_page_text fetch_soup page_url in
  single_spaced text ∧ str_lower text = text.
Proof.
  intros text.
  assert (H : ∀ soup, single_spaced (page_text_of_soup soup)
                      ∧ str_lower (page_text_of_soup soup) = page_text_of_soup soup).
  { intros soup. unfold page_text_of_soup. cbv zeta. split; [apply ws_collapse_single_spaced |].
    apply none_of_lower_fixed, strip_none_of, sub_space_none_of; [done |].
    apply replace_char_none_of; [done |]. apply str_lower_none_of. }
  unfold text, get_page_text.
  destruct (negb (truthy page_url)); [split; [apply single_spaced_nil | done] |].
  destruct page_url; try (split; [apply single_spaced_nil | done]).
  destruct (fetch_soup s); [apply H | split; [apply single_spaced_nil | done]].
Qed.

(** *** What is taken out of the page *)

Lemma flat_map_insert_same {A B} (f : A → list B) (l : list A) (i : nat) (x y : A) :
  l !! i = Some x → f y = f x → flat_map f (<[i := y]> l) = flat_map f l.
Proof.
  revert i. induction l as [| a l IH]; intros [| i] Hi E; try done.
  - cbn in Hi. injection Hi as ->. change (<[0 := y]> (x :: l)) with (y :: l).
    cbn [flat_map]. by rewrite E.
  - cbn [flat_map]. change (<[S i := y]> (a :: l)) with (a :: <[i := y]> l).
    cbn [flat_map]. by rewrite (IH i Hi E).
Qed.

Lemma replace_at_decomposed (names : list string) (new : node) (p : list nat) :
  ∀ root old,
  p ≠ [] → node_at root p = Some old →
  name_in names old = true → name_in names new = true →
  decompose_all names (replace_at root p new) = decompose_all names root
  ∧ name_in names (replace_at root p new) = name_in names root.
Proof.
  induction p as [| i p IH]; intros root old Hp Hat Hold Hnew; [done |].
  destruct root as [name attrs cs |]; [| discriminate].
  cbn [node_at] in Hat. cbn [replace_at]. destruct (cs !! i) as [c |] eqn:Ec; [| discriminate].
  split; [| reflexivity]. cbn [decompose_all]. f_equal.
  apply (flat_map_insert_same _ cs i c); [done |].
  destruct p as [| j p'].
  - cbn [node_at] in Hat. injection Hat as ->. cbn [replace_at]. by rewrite Hold, Hnew.
  - destruct (IH c old ltac:(done) Hat Hold Hnew) as [-> ->]. reflexivity.
Qed.

(** X15: what stands inside a [script], [style], [nav], [footer] or [header]
    element of the page does not reach the page text: with any such element
    replaced by another of these, whatever it holds, the text is the same. *)
Theorem page_text_ignores_chrome (soup : node) (p : list nat) (old new : node) :
  p ≠ [] →
  node_at soup p = Some old →
  name_in chrome_names old = true →
  name_in chrome_names new = true →
  page_text_of_soup (replace_at soup p new) = page_text_of_soup soup.
Proof.
  intros Hp Hat Hold Hnew. unfold page_text_of_soup.
  by destruct (replace_at_decomposed chrome_names new p soup old Hp Hat Hold Hnew) as [-> _].
Qed.

Lemma page_text_ignores_chrome_sample :
  let soup := Tag "[document]" ∅
      [Tag "body" ∅
         [Tag "nav" ∅ [NavigableString "Menu"];
          Tag "p" ∅ [NavigableString "Hello  World"]]] in
  page_text_of_soup soup = u "hello world"
  ∧ page_text_of_soup
      (replace_at soup [0; 0] (Tag "script" ∅ [NavigableString "var x = 1;"]))
    = page_text_of_soup soup.
Proof.
  intros soup. split; [vm_compute; reflexivity |].
  apply (page_text_ignores_chrome soup [0; 0] (Tag "nav" ∅ [NavigableString "Menu"])
           (Tag "script" ∅ [NavigableString "var x = 1;"])); [done | | |]; reflexivity.
Defined.

(** ** The links of the section *)

(** *** Loops that only append *)






Section ReferencesProperties.
Variable fetch_soup : pystr → option node.
Variable urljoin : pystr → pystr → option pystr.








End ReferencesProperties.


(** ** The elements of the section *)

Lemma fallback_kind_sibling_kind (elem : node) :
  name_in fallback_kinds elem = true → name_in sibling_kinds elem = true.
Proof.
  destruct elem as [name attrs cs | s]; [| discriminate].
  cbn [name_in fallback_kinds sibling_kinds existsb]. intros H.
  repeat (apply orb_prop in H as [H | H];
          [apply String.eqb_eq in H; subst name; reflexivity |]).
  discriminate.
Qed.

Lemma sibling_kind_not_heading (elem : node) :
  name_in sibling_kinds elem = true → name_in heading_names elem = false.
Proof.
  destruct elem as [name attrs cs | s]; [| discriminate].
  cbn [name_in sibling_kinds heading_names existsb]. intros H.
  repeat (apply orb_prop in H as [H | H];
          [apply String.eqb_eq in H; subst name; reflexivity |]).
  discriminate.
Qed.

Lemma walk_siblings_kinds (siblings : list node) (count : nat) (content : list node) :
  Forall (fun e => name_in sibling_kinds e = true) content →
  Forall (fun e => name_in sibling_kinds e = true) (walk_siblings siblings count content).
Proof.
  revert count content. induction siblings as [| n siblings IH]; intros count content Hc;
    cbn [walk_siblings]; [done |].
  destruct (node_truthy n && (count <? max_elements)); [| done].
  destruct n as [name attrs cs | s]; [| by apply IH].
  destruct (name_in heading_names _); [done |].
  destruct (name_in sibling_kinds _) eqn:E; [| by apply IH].
  apply IH, Forall_app. split; [done |]. by apply Forall_singleton.
Qed.

Lemma walk_container_kinds (section_header : node) (elems : list node) (found_header : bool)
    (count : nat) (content : list node) :
  Forall (fun e => name_in fallback_kinds e = true) elems →
  Forall (fun e => name_in sibling_kinds e = true) content →
  Forall (fun e => name_in sibling_kinds e = true)
    (walk_container section_header elems found_header count content).
Proof.
  intros He. revert found_header count content.
  induction He as [| e elems Hk _ IH]; intros found_header count content Hc;
    cbn [walk_container]; [done |].
  destruct (node_eqb e section_header); [by apply IH |].
  destruct (found_header && (count <? max_elements)); [| by apply IH].
  destruct (name_in heading_names e); [done |].
  destruct (negb (existsb (node_eqb e) content)); [| by apply IH].
  apply IH, Forall_app. split; [done |].
  by apply Forall_singleton, fallback_kind_sibling_kind.
Qed.

Lemma walk_container_cap (section_header : node) (elems : list node) (found_header : bool)
    (count : nat) (content : list node) :
  length (walk_container section_header elems found_header count content)
  ≤ length content + (max_elements - count).
Proof.
  revert found_header count content.
  induction elems as [| e elems IH]; intros found_header count content;
    cbn [walk_container]; [lia |].
  destruct (node_eqb e section_header); [apply IH |].
  destruct found_header; cbn [andb]; [| apply IH].
  destruct (Nat.ltb_spec count max_elements) as [Hc | Hc]; [| apply IH].
  destruct (name_in heading_names e); [lia |].
  destruct (negb (existsb (node_eqb e) content)); [| apply IH].
  specialize (IH true (S count) (content ++ [e])).
  rewrite length_app in IH. cbn [length] in IH. lia.
Qed.

(** X17: the section content has at most 22 elements, and each of them is
    a tag of one of the eight kinds [p], [div], [li], [ul], [ol], [span],
    [a], [section], so never a heading. *)
Theorem section_content_bounded (soup : node) (header : list nat) :
  let content := collect_section_content soup header in
  length content ≤ 22
  ∧ ∀ elem, elem ∈ content →
      name_in sibling_kinds elem = true ∧ name_in heading_names elem = false.
Proof.
  intros content.
  assert (H : length content ≤ 22
              ∧ Forall (fun e => name_in sibling_kinds e = true) content).
  { unfold content, collect_section_content.
    destruct (node_at soup header) as [section_header |]; [| split; [cbn; lia | done]].
    cbv zeta.
    pose proof (walk_siblings_cap (next_siblings soup header) 0 []) as Hcap.
    pose proof (walk_siblings_kinds (next_siblings soup header) 0 [] (Forall_nil_2 _))
      as Hkinds.
    set (siblings := walk_siblings (next_siblings soup header) 0 []) in *.
    unfold max_elements in Hcap. cbn [length] in Hcap.
    destruct (Nat.ltb_spec (length siblings) 3) as [Hlt | Hge]; [| split; [lia | done]].
    destruct (find_parent container_names soup (rev header)) as [parent |];
      [| split; [lia | done]].
    split.
    - pose proof (walk_container_cap section_header (find_all fallback_kinds parent)
                    false 0 siblings) as Hc.
      unfold max_elements in Hc. lia.
    - apply walk_container_kinds; [| done].
      apply Forall_forall. intros e He. unfold find_all in He.
      apply list_elem_of_In, filter_In in He as [_ He]. exact He. }
  destruct H as [Hlen Hall]. split; [exact Hlen |].
  intros elem He. rewrite Forall_forall in Hall. specialize (Hall elem He).
  split; [exact Hall | by apply sibling_kind_not_heading].
Qed.

(** ** Host names in the text *)

Lemma u_full_stop : u "." = [46%N].
Proof. vm_compute. reflexivity. Qed.

Lemma span_len_all (f : N → bool) (l : pystr) : forallb f l = true → span_len f l = length l.
Proof.
  intros H. rewrite <- (app_nil_r l) at 1. by apply span_len_app_stop.
Qed.

(** The pattern at a name: a label, a full stop and letters, then no letter
    and no slash *)
Lemma domain_re_host (prev : option N) (c0 : N) (l1 l2 rest : pystr) :
  is_ascii_alnum c0 = true → forallb is_label_char l1 = true →
  forallb is_ascii_alpha l2 = true → 2 ≤ length l2 →
  match rest with [] => True | c :: _ => is_ascii_alpha c = false ∧ c ≠ 47%N end →
  domain_re prev (c0 :: l1 ++ 46%N :: l2 ++ rest) = Some (S (length l1 + 1 + length l2)).
Proof.
  intros H0 H1 H2 Hlen Hrest. unfold domain_re. rewrite H0.
  rewrite (span_len_app_stop is_label_char l1 (46%N :: l2 ++ rest) H1 eq_refl).
  rewrite drop_app_length. cbn [N.eqb Pos.eqb].
  assert (Hs : span_len is_ascii_alpha (l2 ++ rest) = length l2).
  { apply span_len_app_stop; [done |]. destruct rest; [done | by destruct Hrest]. }
  rewrite Hs. destruct (Nat.leb_spec 2 (length l2)) as [_ | Hlt]; [| lia].
  rewrite drop_app_length. f_equal.
  destruct rest as [| c rest]; [lia |]. destruct Hrest as [_ Hc].
  apply N.eqb_neq in Hc. rewrite Hc. lia.
Qed.

Lemma domain_re_label (prev : option N) (l : pystr) :
  forallb is_label_char l = true → domain_re prev l = None.
Proof.
  intros H. unfold domain_re. destruct l as [| c0 r]; [reflexivity |].
  destruct (is_ascii_alnum c0); [| reflexivity].
  cbn [forallb] in H. apply andb_prop in H as [_ H].
  by rewrite (span_len_all _ _ H), drop_all.
Qed.

Lemma forallb_drop {A} (f : A → bool) (l : list A) (j : nat) :
  forallb f l = true → forallb f (drop j l) = true.
Proof.
  revert j. induction l as [| x l IH]; intros [| j] H; try done.
  cbn [drop]. cbn [forallb] in H. apply andb_prop in H as [_ H]. by apply IH.
Qed.

Lemma finditer_go_nothing (m : matcher) (s : pystr) :
  (∀ prev j, m prev (drop j s) = None) →
  ∀ skip pos prev, finditer_go m skip pos prev s = [].
Proof.
  induction s as [| c s IH]; intros H skip pos prev; [reflexivity |].
  assert (H' : ∀ prev j, m prev (drop j s) = None) by (intros p j; apply (H p (S j))).
  cbn [finditer_go]. destruct skip as [| k]; [| by apply IH].
  pose proof (H prev 0) as H0. cbn [drop] in H0. rewrite H0. by apply IH.
Qed.

Lemma finditer_go_skip_nothing (m : matcher) (a b : pystr) :
  (∀ prev j, m prev (drop j b) = None) →
  ∀ pos prev, finditer_go m (length a) pos prev (a ++ b) = [].
Proof.
  intros H. induction a as [| x a IH]; intros pos prev.
  - by apply finditer_go_nothing.
  - cbn [length app finditer_go]. apply IH.
Qed.

(** X18: in a line that is a host name of three labels, [domain_pattern]
    finds the first two labels only: for a first label of letters, digits
    and hyphens that starts with a letter or a digit, a second label of two
    letters or more and a third label of letters, digits and hyphens,
    [re.findall] gives the one text made of the first label, the full stop
    and the second label. *)
Theorem text_host_cut_to_two_labels (c0 : N) (l1 l2 l3 : pystr) :
  is_ascii_alnum c0 = true → forallb is_label_char l1 = true →
  forallb is_ascii_alpha l2 = true → 2 ≤ length l2 →
  forallb is_label_char l3 = true →
  findall domain_re ((c0 :: l1) ++ u "." ++ l2 ++ u "." ++ l3)
  = [(c0 :: l1) ++ u "." ++ l2].
Proof.
  intros H0 H1 H2 Hlen H3. rewrite u_full_stop. cbn [app].
  unfold findall, finditer. cbn [finditer_go].
  rewrite (domain_re_host None c0 l1 l2 (46%N :: l3) H0 H1 H2 Hlen)
    by (split; [reflexivity | discriminate]).
  replace (l1 ++ 46%N :: l2 ++ 46%N :: l3) with ((l1 ++ 46%N :: l2) ++ 46%N :: l3)
    by (rewrite <- app_assoc; reflexivity).
  replace (length l1 + 1 + length l2) with (length (l1 ++ 46%N :: l2))
    by (rewrite length_app; cbn [length]; lia).
  rewrite finditer_go_skip_nothing.
  - cbn [List.map fst snd]. unfold slice. cbn [drop]. f_equal.
    replace (0 + S (length (l1 ++ 46%N :: l2)) - 0) with (length (c0 :: l1 ++ 46%N :: l2))
      by (cbn [length]; lia).
    change (c0 :: (l1 ++ 46%N :: l2) ++ 46%N :: l3)
      with ((c0 :: l1 ++ 46%N :: l2) ++ 46%N :: l3).
    apply take_app_length.
  - intros prev [| j].
    + reflexivity.
    + cbn [drop]. apply domain_re_label. by apply forallb_drop.
Qed.

Lemma text_host_cut_to_two_labels_www :
  findall domain_re (u "www.example.com") = [u "www.example"].
Proof.
  assert (E : u "www.example.com" = (119%N :: u "ww") ++ u "." ++ u "example" ++ u "." ++ u "com")
    by (vm_compute; reflexivity).
  assert (E' : u "www.example" = (119%N :: u "ww") ++ u "." ++ u "example")
    by (vm_compute; reflexivity).
  rewrite E, E'.
  apply (text_host_cut_to_two_labels 119%N (u "ww") (u "example") (u "com")).
  - reflexivity.
  - vm_compute. reflexivity.
  - vm_compute. reflexivity.
  - vm_compute. lia.
  - vm_compute. reflexivity.
Defined.

(** ** The Ukrainian address of a Ukrainian address *)

(** *** The parts [urlsplit] returns *)

Lemma lower_ascii (c : N) :
  (c ≤ 122)%N → lower c = (if (65 <=? c) && (c <=? 90) then c + 32 else c)%N.
Proof.
  intros Hc. unfold lower. destruct ((65 <=? c) && (c <=? 90))%N; [reflexivity |].
  repeat match goal with
  | |- context [if ?b then _ else _] => destruct b eqn:?; [exfalso; bool_to_prop; lia |]
  end.
  reflexivity.
Qed.

Lemma scheme_char_le (c : N) : is_scheme_char c = true → (c ≤ 122)%N.
Proof.
  unfold is_scheme_char, is_ascii_alpha, is_ascii_digit.
  rewrite !orb_true_iff, !andb_true_iff, !N.leb_le, !N.eqb_eq. lia.
Qed.

Lemma scheme_char_lower (c : N) :
  is_scheme_char c = true → is_scheme_char (lower c) = true.
Proof.
  intros H. rewrite (lower_ascii c (scheme_char_le c H)).
  destruct ((65 <=? c) && (c <=? 90))%N eqn:E; [| exact H].
  unfold is_scheme_char, is_ascii_alpha. bool_to_prop.
  rewrite !orb_true_iff, !andb_true_iff, !N.leb_le. lia.
Qed.

Lemma ascii_alpha_lower (c : N) :
  is_ascii_alpha c = true → is_ascii_alpha (lower c) = true.
Proof.
  intros H.
  assert (Hc : (c ≤ 122)%N).
  { unfold is_ascii_alpha in H.
    rewrite !orb_true_iff, !andb_true_iff, !N.leb_le in H. lia. }
  rewrite (lower_ascii c Hc).
  destruct ((65 <=? c) && (c <=? 90))%N eqn:E; [| exact H].
  unfold is_ascii_alpha. bool_to_prop.
  rewrite !orb_true_iff, !andb_true_iff, !N.leb_le. lia.
Qed.

Lemma scheme_chars_lower (l : pystr) :
  forallb is_scheme_char l = true → forallb is_scheme_char (str_lower l) = true.
Proof.
  induction l as [| c l IH]; [done |]. cbn [forallb str_lower List.map].
  intros H. apply andb_prop in H as [Hc Hl]. rewrite (scheme_char_lower c Hc).
  by apply IH.
Qed.

Lemma urlsplit_scheme (url scheme netloc path query fragment : pystr) :
  urlsplit url = Some (scheme, netloc, path, query, fragment) → scheme_form scheme.
Proof.
  unfold urlsplit.
  set (url' := List.filter _ (lstrip_c0 url)).
  match goal with
  | |- context [let '(_, _) := ?x in _] => destruct x as [scheme' rest] eqn:Es
  end.
  assert (Hs : scheme_form scheme').
  { destruct (find_char 58 url') as [i |]; [| injection Es as <- _; by left].
    destruct ((0 <? i) && head_is_ascii_alpha url' && forallb is_scheme_char (take i url'))
      eqn:Ec; [| injection Es as <- _; by left].
    injection Es as <- _. right.
    apply andb_prop in Ec as [Ec Hall]. apply andb_prop in Ec as [Hi Hhead].
    apply Nat.ltb_lt in Hi. split; [| split].
    - destruct url' as [| c url'']; [discriminate |]. destruct i as [| i]; [lia |].
      cbn [take str_lower List.map head_is_ascii_alpha] in *. by apply ascii_alpha_lower.
    - by apply scheme_chars_lower.
    - apply str_lower_lower. }
  destruct (startswith (u "//") rest);
    (destruct (_ || _); [discriminate |]); repeat destruct_let_pair;
    intros [= <- _ _ _ _]; exact Hs.
Qed.

Lemma urlsplit_brackets (url scheme netloc path query fragment : pystr) :
  urlsplit url = Some (scheme, netloc, path, query, fragment) →
  has_char 91 netloc && negb (has_char 93 netloc)
  || has_char 93 netloc && negb (has_char 91 netloc) = false.
Proof.
  unfold urlsplit. destruct_let_pair.
  destruct (startswith (u "//") _).
  - destruct (_ || _) eqn:B; [discriminate |]. repeat destruct_let_pair.
    intros [= _ <- _ _ _]. exact B.
  - destruct (_ || _) eqn:B; [discriminate |]. repeat destruct_let_pair.
    intros [= _ <- _ _ _]. exact B.
Qed.

(** *** Cuts that keep the head of a text *)

Lemma find_char_app_skip (c : N) (pre t : pystr) :
  none_of (fun x => (x =? c)%N) pre = true →
  find_char c (pre ++ t) = option_map (Nat.add (length pre)) (find_char c t).
Proof.
  induction pre as [| x pre IH]; cbn [none_of forallb app find_char length].
  - intros _. by destruct (find_char c t).
  - intros H. apply andb_prop in H as [Hx Hp]. apply negb_true_iff in Hx. rewrite Hx.
    unfold none_of in IH. rewrite (IH Hp). by destruct (find_char c t).
Qed.

Lemma split_once_keeps (c : N) (pre t : pystr) :
  none_of (fun x => (x =? c)%N) pre = true →
  ∃ r, fst (split_once c (pre ++ t)) = pre ++ r.
Proof.
  intros H. unfold split_once. rewrite (find_char_app_skip c pre t H).
  destruct (find_char c t) as [i |]; cbn [option_map fst].
  - exists (take i t). by rewrite take_app_add.
  - by exists t.
Qed.

Lemma after_last_slash_length (s r : pystr) :
  after_last_slash s = Some r → length r < length s.
Proof.
  revert r. induction s as [| c s IH]; intros r; cbn [after_last_slash]; [discriminate |].
  destruct (after_last_slash s) as [r' |].
  - intros [= <-]. specialize (IH r' eq_refl). cbn [length]. lia.
  - destruct (c =? 47)%N; [| discriminate]. intros [= <-]. cbn [length]. lia.
Qed.

Lemma after_last_slash_app (a b : pystr) :
  after_last_slash (a ++ 47%N :: b)
  = Some (match after_last_slash b with Some r => r | None => b end).
Proof.
  induction a as [| x a IH]; cbn [app after_last_slash].
  - by destruct (after_last_slash b).
  - by rewrite IH.
Qed.

Lemma splitparams_keeps (pre t : pystr) :
  ∃ r, fst (splitparams (pre ++ 47%N :: t)) = pre ++ 47%N :: r.
Proof.
  unfold splitparams. rewrite after_last_slash_app.
  set (seg := match after_last_slash t with Some r => r | None => t end).
  assert (Hseg : length seg ≤ length t).
  { unfold seg. destruct (after_last_slash t) as [r |] eqn:E; [| lia].
    apply after_last_slash_length in E. lia. }
  destruct (find_char 59 seg) as [j |]; cbn [fst]; [| by exists t].
  rewrite length_app. cbn [length].
  exists (take (length t - length seg + j) t).
  replace (length pre + S (length t) - length seg + j)
    with (length pre + S (length t - length seg + j)) by lia.
  rewrite take_app_add. reflexivity.
Qed.

Lemma contains_app_mid (p a b : pystr) : contains p (a ++ p ++ b) = true.
Proof.
  apply contains_spec. exists (length a). by rewrite drop_app_length, take_app_length.
Qed.

Lemma none_of_filter (bad f : N → bool) (l : pystr) :
  none_of bad l = true → none_of bad (List.filter f l) = true.
Proof.
  unfold none_of. rewrite !forallb_forall. intros H c Hc.
  apply filter_In in Hc as [Hc _]. by apply H.
Qed.

Lemma has_char_filter (c : N) (f : N → bool) (l : pystr) :
  f c = true → has_char c (List.filter f l) = has_char c l.
Proof.
  intros Hf. induction l as [| x l IH]; [reflexivity |].
  cbn [List.filter has_char existsb]. destruct (f x) eqn:Ex.
  - cbn [existsb]. unfold has_char in IH. by rewrite IH.
  - destruct (N.eqb_spec x c) as [-> | Hne]; [congruence |]. exact IH.
Qed.

(** *** The address written by [generate_ukrainian_url], parsed again *)

Lemma urlsplit_ua_address (scheme netloc tail : pystr) :
  scheme_form scheme →
  none_of is_netloc_delim netloc = true →
  has_char 91 netloc && negb (has_char 93 netloc)
  || has_char 93 netloc && negb (has_char 91 netloc) = false →
  ∃ scheme' netloc' a r query fragment,
    urlsplit (scheme ++ u "://" ++ netloc ++ u "/ua/" ++ tail)
    = Some (scheme', netloc', a ++ 47%N :: u "ua" ++ 47%N :: r, query, fragment).
Proof.
  intros Hscheme Hnet Hbr.
  set (keep := fun c => negb (is_unsafe_url_byte c)).
  set (N' := List.filter keep netloc). set (T' := List.filter keep tail).
  assert (HN : none_of is_netloc_delim N' = true) by (by apply none_of_filter).
  assert (HbrN : has_char 91 N' && negb (has_char 93 N')
                 || has_char 93 N' && negb (has_char 91 N') = false).
  { unfold N'. by rewrite !has_char_filter. }
  assert (Hua : ∀ pre, none_of (fun x => (x =? 35)%N) pre = true →
                  none_of (fun x => (x =? 63)%N) pre = true →
                  ∀ t, ∃ r, fst (split_once 63 (fst (split_once 35 ((pre ++ u "/ua/") ++ t))))
                            = pre ++ 47%N :: u "ua" ++ 47%N :: r).
  { intros pre H35 H63 t.
    destruct (split_once_keeps 35 (pre ++ u "/ua/") t) as [r1 ->];
      [by rewrite none_of_app, H35 |].
    destruct (split_once_keeps 63 (pre ++ u "/ua/") r1) as [r2 ->];
      [by rewrite none_of_app, H63 |].
    exists r2. rewrite <- app_assoc. reflexivity. }
  destruct Hscheme as [-> | (Hhead & Hsch & Hlow)].
  - (* no scheme: the text begins with the colon, and all of it is the path *)
    unfold urlsplit. cbn [app].
    change (u "://" ++ ?r) with (58%N :: u "//" ++ r).
    assert (E1 : ∀ r, lstrip_c0 (58%N :: r) = 58%N :: r) by reflexivity. rewrite E1.
    assert (E2 : List.filter keep (58%N :: u "//" ++ netloc ++ u "/ua/" ++ tail)
                 = 58%N :: u "//" ++ N' ++ u "/ua/" ++ T').
    { change (58%N :: u "//" ++ ?r) with (u "://" ++ r).
      rewrite !List.filter_app. reflexivity. }
    fold keep. rewrite E2.
    set (U := 58%N :: u "//" ++ N' ++ u "/ua/" ++ T').
    assert (E3 : find_char 58 U = Some 0) by reflexivity. rewrite E3.
    change (0 <? 0) with false. cbn [andb].
    assert (E4 : startswith (u "//") U = false) by reflexivity. rewrite E4.
    cbn [has_char existsb andb orb negb].
    destruct (Hua (58%N :: u "//" ++ N')) with (t := T') as [r Hr].
    { rewrite (none_of_app _ (u "://") N').
      assert (none_of (fun x => (x =? 35)%N) N' = true) as ->
        by (refine (none_of_weaken _ _ _ _ HN); intros c Hc; unfold is_netloc_delim;
            rewrite Hc; by rewrite ?orb_true_r).
      reflexivity. }
    { rewrite (none_of_app _ (u "://") N').
      assert (none_of (fun x => (x =? 63)%N) N' = true) as ->
        by (refine (none_of_weaken _ _ _ _ HN); intros c Hc; unfold is_netloc_delim;
            rewrite Hc; by rewrite ?orb_true_r).
      reflexivity. }
    assert (EU : ((58%N :: u "//" ++ N') ++ u "/ua/") ++ T' = U).
    { unfold U. cbn [app]. by rewrite <- !app_assoc. }
    rewrite EU in Hr.
    destruct (split_once 35 U) as [a fragment]. cbn [fst] in Hr.
    destruct (split_once 63 a) as [p query]. cbn [fst] in Hr. subst p.
    by exists [], [], (58%N :: u "//" ++ N'), r, query, fragment.
  - (* a scheme: it is read again, and so is the netloc *)
    assert (Hsch_colon : none_of (fun x => (x =? 58)%N) scheme = true).
    { unfold none_of. rewrite forallb_forall in *. intros c Hc.
      by destruct (scheme_char_plain c (Hsch c Hc)) as (-> & _). }
    assert (Hsch_safe : forallb keep scheme = true).
    { rewrite forallb_forall in *. intros c Hc. unfold keep.
      by destruct (scheme_char_plain c (Hsch c Hc)) as (_ & -> & _). }
    unfold urlsplit.
    assert (E1 : lstrip_c0 (scheme ++ u "://" ++ netloc ++ u "/ua/" ++ tail)
                 = scheme ++ u "://" ++ netloc ++ u "/ua/" ++ tail).
    { by apply head_alpha_app. }
    rewrite E1.
    assert (E2 : List.filter keep (scheme ++ u "://" ++ netloc ++ u "/ua/" ++ tail)
                 = scheme ++ u "://" ++ N' ++ u "/ua/" ++ T').
    { rewrite !List.filter_app, (filter_all keep scheme Hsch_safe). reflexivity. }
    fold keep. rewrite E2.
    change (u "://" ++ ?r) with (58%N :: u "//" ++ r).
    rewrite find_char_app_here by done.
    set (R := u "//" ++ N' ++ u "/ua/" ++ T').
    assert (E3 : (0 <? length scheme) && head_is_ascii_alpha (scheme ++ 58%N :: R)
                 && forallb is_scheme_char (take (length scheme) (scheme ++ 58%N :: R))
                 = true).
    { rewrite take_app_length, Hsch.
      destruct (head_alpha_app scheme (58%N :: R) Hhead) as (-> & _ & Hlen).
      by destruct (Nat.ltb_spec 0 (length scheme)); [| lia]. }
    rewrite E3, take_app_length, Hlow, drop_after. unfold R.
    rewrite startswith_app.
    change (drop 2 (u "//" ++ ?r)) with r.
    assert (E4 : span_len (fun c => negb (is_netloc_delim c)) (N' ++ u "/ua/" ++ T')
                 = length N').
    { apply span_len_app_stop; [exact HN | reflexivity]. }
    rewrite E4, take_app_length, drop_app_length, HbrN.
    destruct (Hua []) with (t := T') as [r Hr]; [reflexivity | reflexivity |].
    cbn [app] in Hr.
    destruct (split_once 35 (u "/ua/" ++ T')) as [a fragment]. cbn [fst] in Hr.
    destruct (split_once 63 a) as [p query]. cbn [fst] in Hr. subst p.
    by exists scheme, N', [], r, query, fragment.
Qed.

Lemma urlparse_ua_address (scheme netloc tail : pystr) :
  scheme_form scheme →
  none_of is_netloc_delim netloc = true →
  has_char 91 netloc && negb (has_char 93 netloc)
  || has_char 93 netloc && negb (has_char 91 netloc) = false →
  ∃ parsed, urlparse (scheme ++ u "://" ++ netloc ++ u "/ua/" ++ tail) = Some parsed
            ∧ contains (u "/ua/") (url_path parsed) = true.
Proof.
  intros Hs Hn Hb.
  destruct (urlsplit_ua_address scheme netloc tail Hs Hn Hb)
    as (scheme' & netloc' & a & r & query & fragment & E).
  unfold urlparse. rewrite E.
  assert (Hc : ∀ x, contains (u "/ua/") (a ++ 47%N :: u "ua" ++ 47%N :: x) = true).
  { intros x. apply (contains_app_mid (u "/ua/") a x). }
  destruct (str_in scheme' uses_params && has_char 59 _).
  - destruct (splitparams_keeps (a ++ 47%N :: u "ua") r) as [r' Hr'].
    rewrite <- app_assoc in Hr'. cbn [app] in Hr'.
    change (u "ua" ++ ?x) with (117%N :: 97%N :: x) in *.
    rewrite <- app_assoc in Hr'. cbn [app] in Hr'.
    destruct (splitparams _) as [path params]. cbn [fst] in Hr'. subst path.
    eexists. split; [reflexivity |]. cbn [url_path]. apply (Hc r').
  - eexists. split; [reflexivity |]. cbn [url_path]. apply (Hc r).
Qed.

(** The address has no [/ua/] yet: the function writes one after the netloc. *)
Lemma generate_ukrainian_url_writes (ru_url : pystr) (parsed : ParseResult) :
  ru_url ≠ [] → urlparse ru_url = Some parsed →
  contains (u "/ua/") (url_path parsed) = false →
  ∃ tail, generate_ukrainian_url (PyStr ru_url)
          = url_scheme parsed ++ u "://" ++ url_netloc parsed ++ u "/ua/" ++ tail.
Proof.
  intros Hne Hp Hc. unfold generate_ukrainian_url.
  destruct ru_url as [| c0 ru_url0]; [done |]. cbn [truthy isinstance_str negb orb str_of].
  rewrite Hp, Hc.
  set (Q := if nonempty (url_query parsed) then u "?" ++ url_query parsed else []).
  set (F := if nonempty (url_fragment parsed) then u "#" ++ url_fragment parsed else []).
  exists (match url_path parsed with
          | c :: rest => if (c =? 47)%N then rest else c :: rest
          | [] => []
          end ++ Q ++ F).
  assert (Epath : (if startswith (u "/") (url_path parsed) then u "/ua" ++ url_path parsed
                   else u "/ua/" ++ url_path parsed)
                  = u "/ua/" ++ match url_path parsed with
                                | c :: rest => if (c =? 47)%N then rest else c :: rest
                                | [] => []
                                end).
  { destruct (url_path parsed) as [| c rest]; [reflexivity |].
    change (startswith (u "/") (c :: rest)) with ((c =? 47)%N && true).
    rewrite andb_true_r. destruct (N.eqb_spec c 47) as [-> | _]; reflexivity. }
  rewrite Epath. unfold Q, F.
  destruct (nonempty (url_query parsed)), (nonempty (url_fragment parsed));
    rewrite <- ?app_assoc, ?app_nil_r; reflexivity.
Qed.

Lemma urlparse_urlsplit (url : pystr) (parsed : ParseResult) :
  urlparse url = Some parsed →
  ∃ path, urlsplit url = Some (url_scheme parsed, url_netloc parsed, path,
                               url_query parsed, url_fragment parsed).
Proof.
  unfold urlparse.
  destruct (urlsplit url) as [[[[[scheme netloc] path] query] fragment] |];
    [| discriminate].
  destruct_let_pair. intros [= <-]. by exists path.
Qed.

(** X19: [generate_ukrainian_url] applied to its own result returns that
    result: the address it writes has [/ua/] in its path when it is parsed
    again, whatever the input was, and the empty text it returns for an
    input it refuses is refused in turn. *)
Theorem generate_ukrainian_url_idempotent (ru_url : pyobj) :
  generate_ukrainian_url (PyStr (generate_ukrainian_url ru_url))
  = generate_ukrainian_url ru_url.
Proof.
  assert (Hnil : generate_ukrainian_url (PyStr []) = []) by reflexivity.
  assert (Hnon : ∀ x, isinstance_str x = false → generate_ukrainian_url x = []).
  { intros x H. unfold generate_ukrainian_url. rewrite H. cbn [negb].
    by rewrite orb_true_r. }
  assert (Hkeep : ∀ s parsed, s ≠ [] → urlparse s = Some parsed →
                    contains (u "/ua/") (url_path parsed) = true →
                    generate_ukrainian_url (PyStr s) = s).
  { intros s parsed Hs Hp Hc. unfold generate_ukrainian_url.
    destruct s as [| c s0]; [done |]. cbn [truthy isinstance_str negb orb str_of].
    by rewrite Hp, Hc. }
  destruct ru_url as [| b | z | s | l];
    try (match goal with
         | |- _ = generate_ukrainian_url ?x => rewrite (Hnon x) by reflexivity
         end; exact Hnil).
  destruct s as [| c s0]; [by rewrite Hnil |].
  remember (c :: s0) as s eqn:Es. assert (Hs : s ≠ []) by (by subst s).
  destruct (urlparse s) as [parsed |] eqn:Hp.
  - destruct (contains (u "/ua/") (url_path parsed)) eqn:Hc.
    + rewrite (Hkeep s parsed Hs Hp Hc). exact (Hkeep s parsed Hs Hp Hc).
    + destruct (generate_ukrainian_url_writes s parsed Hs Hp Hc) as [tail ->].
      destruct (urlparse_urlsplit s parsed Hp) as [path Hsplit].
      destruct (urlparse_ua_address (url_scheme parsed) (url_netloc parsed) tail)
        as (parsed' & Hp' & Hc').
      * exact (urlsplit_scheme _ _ _ _ _ _ Hsplit).
      * exact (urlsplit_netloc_no_delim _ _ _ _ _ _ Hsplit).
      * exact (urlsplit_brackets _ _ _ _ _ _ Hsplit).
      * apply (Hkeep _ parsed'); [| exact Hp' | exact Hc'].
        change (u "://" ++ ?r) with (58%N :: u "//" ++ r).
        by destruct (url_scheme parsed).
  - assert (E : generate_ukrainian_url (PyStr s) = []).
    { unfold generate_ukrainian_url. rewrite Es at 1 2.
      cbn [truthy isinstance_str negb orb str_of]. by rewrite Hp. }
    rewrite E. exact Hnil.
Qed.
